(** * Transaction pool admission, REST controller and peer socket server

    A shallow embedding of
    - [packages/core-p2p/src/socket-server/index.ts] ([startSocketServer] and
      its ["workerMessage"] dispatcher),
    - [packages/core-api/src/controllers/transactions.ts]
      ([TransactionsController.store], [unconfirmed], [showUnconfirmed]),
    together with the transaction store and admission processor those two
    call into.

    JavaScript values are kept JSON-shaped ([Json]); objects used as
    dictionaries are finite maps over their own string keys, and what a
    read finds beyond them, on the prototype, is written out where the code
    reads a key it has not checked; numbers that the code treats as counts,
    positions or milliseconds are integers; strings are byte strings. *)

From stdpp Require Import gmap strings list fin_maps.
From Stdlib Require Import ZArith Ascii String.

Open Scope string_scope.
Open Scope list_scope.

(** ** JavaScript values *)

#[local] Unset Elimination Schemes.
Inductive Json : Type :=
| JUndefined
| JNull
| JBool (b : bool)
| JNum (n : Z)
| JStr (s : string)
| JArr (items : list Json)
| JObj (fields : list (string * Json)).
#[local] Set Elimination Schemes.

(** [ToBoolean]: the value tested by [if (v)], [v || w] and [!!v]. *)
Definition truthy (v : Json) : bool :=
  match v with
  | JUndefined | JNull => false
  | JBool b => b
  | JNum n => negb (n =? 0)%Z
  | JStr s => negb (String.eqb s "")
  | JArr _ | JObj _ => true
  end.

(** [a || b] *)
Definition js_or (a b : Json) : Json := if truthy a then a else b.

(** An error object: [instanceof ServerError] and [.message]. *)
Record JsError := mkError { isServerError : bool; message : string }.

Definition Error (msg : string) : JsError := mkError false msg.
Definition ServerError (msg : string) : JsError := mkError true msg.

(** What a [throw] may throw: [null] or [undefined], of which no member
    can be read, or any other value, taken as the error object that
    [instanceof] and [.message] make of it. *)
Inductive Thrown :=
| ThrownError (e : JsError)
| ThrownNull
| ThrownUndefined.

Definition nullish (thrown : Thrown) : bool :=
  match thrown with
  | ThrownError _ => false
  | ThrownNull | ThrownUndefined => true
  end.

(** [s.split(sep)] for a one-character separator: never empty, and an
    empty field between two separators is kept. *)
Fixpoint split (sep : ascii) (s : string) : list string :=
  match s with
  | EmptyString => [EmptyString]
  | String c rest =>
      if Ascii.eqb c sep then EmptyString :: split sep rest
      else match split sep rest with
           | w :: ws => String c w :: ws
           | [] => [String c EmptyString]
           end
  end.

(** A property key: [obj[k]] with [k] undefined reads the key "undefined". *)
Definition propertyKey (k : option string) : string := default "undefined" k.

(** [hay.includes(needle)] *)
Fixpoint includes (needle hay : string) : bool :=
  String.prefix needle hay ||
  match hay with
  | EmptyString => false
  | String _ rest => includes needle rest
  end.

(** ** The peer socket server *)

Module SocketServer.

(** [{ endpoint, data }] as received from a worker, for an [endpoint] that
    is a string; [onWorkerMessage] below takes the others. *)
Record PeerRequest := mkPeerRequest { endpoint : string; data : Json }.

(** What [res] is called with: [res(error)] or [res(undefined, {data, headers})]. *)
Inductive PeerResponse :=
| ResError (error : JsError)
| ResOk (body headers : Json).

(** A registered request schema is an object literal, hence truthy. *)
Definition Schema : Type := list (string * Json).

(** A property read that misses the entries of a table falls through to
    what every plain object inherits. [FromTable version method] is the
    member [method] that the table's own entry for [version] inherits;
    [FromPrototype version method] is the member [method] of the value that
    the table itself inherits under [version]. *)
Inductive Lookup :=
| FromTable (version method : string)
| FromPrototype (version method : string).

(** What reading an inherited member does: the getter throws, there is no
    such member, or there is a value, truthy or not. *)
Inductive Read :=
| ReadThrows (thrown : Thrown)
| ReadUndefined
| ReadValue (isTruthy : bool).

(** The engine's side of property reads and calls. [inheritedVersion v] is
    the read of [v] on the prototype of a plain object; [inheritedMember l]
    the read of the member [l] names, which throws when the value it is
    read from is [null]; [callMember l] is that member as a function of the
    argument [{ app, service, req }], [None] when it cannot be called. *)
Record Runtime := mkRuntime {
  inheritedVersion : string → Read;
  inheritedMember : Lookup → Read;
  callMember : Lookup → option (PeerRequest → Thrown + Json)
}.

(** What [validate] is handed as its schema. *)
Inductive SchemaArg :=
| Registered (schema : Schema)
| Inherited (l : Lookup).

(** The calls the dispatcher makes on its collaborators, in order. *)
Inductive Event :=
| EvValidate (schema : Schema) (payload : Json)
| EvValidateInherited (l : Lookup) (payload : Json)
| EvHandler (version method : string) (req : PeerRequest)
| EvCallInherited (l : Lookup) (req : PeerRequest)
| EvGetHeaders
| EvLogError (msg : string).

(** The calls of a trace that reach a registered handler, respectively the
    validator. *)
Definition isHandlerCall (ev : Event) : bool :=
  match ev with EvHandler _ _ _ => true | _ => false end.
Definition isValidation (ev : Event) : bool :=
  match ev with EvValidate _ _ | EvValidateInherited _ _ => true | _ => false end.

(** The calls of a trace that run something as the handler: a registered
    handler or an inherited member. *)
Definition isCall (ev : Event) : bool :=
  match ev with EvHandler _ _ _ | EvCallInherited _ _ => true | _ => false end.

(** Code that may throw and that leaves a trace of collaborator calls. *)
Definition Exec (A : Type) : Type := list Event * (Thrown + A).

Definition ret {A} (a : A) : Exec A := ([], inr a).
Definition throw {A} (e : Thrown) : Exec A := ([], inl e).
Definition emit (ev : Event) : Exec unit := ([ev], inr tt).
Definition bind {A B} (k : A → Exec B) (m : Exec A) : Exec B :=
  match m with
  | (t, inl e) => (t, inl e)
  | (t, inr a) => let '(t', r) := k a in (t ++ t', r)
  end.
#[export] Instance Exec_ret : MRet Exec := @ret.
#[export] Instance Exec_bind : MBind Exec := @bind.
Definition try_catch {A} (m : Exec A) (h : Thrown → Exec A) : Exec A :=
  match m with
  | (t, inl e) => let '(t', r) := h e in (t ++ t', r)
  | (t, inr a) => (t, inr a)
  end.

Definition trace {A} (m : Exec A) : list Event := fst m.
Definition outcome {A} (m : Exec A) : Thrown + A := snd m.

(** The ways a property read or a call fails before any callee runs. *)
Inductive TypeErrorKind :=
| PropertyOfUndefined (key : string)
| PropertyOfNull (key : string)
| NotAFunction (callee : string).

(** [const [, version, method] = req.endpoint.split(".")], each then
    used as a property key. *)
Definition versionOf (req : PeerRequest) : string :=
  propertyKey (split "." (endpoint req) !! 1%nat).
Definition methodOf (req : PeerRequest) : string :=
  propertyKey (split "." (endpoint req) !! 2%nat).

Section Dispatch.
(** [requestSchemas] from ["../schemas"]: version, then method. *)
Variable requestSchemas : gmap string (gmap string Schema).
(** [handlers] from ["./versions"]: version, then method; a handler
    sees the whole request and either returns or throws. *)
Variable handlers : gmap string (gmap string (PeerRequest → Thrown + Json)).
(** What the two tables inherit. *)
Variable runtime : Runtime.
(** [validate] from ["./utils/validate"]: [Some e] when it throws [e]. *)
Variable validate : SchemaArg → Json → option Thrown.
(** [getHeaders(app)] for the application state at the time of the call. *)
Variable getHeaders : Json.
(** The engine's message text for a [TypeError]. *)
Variable typeErrorMessage : TypeErrorKind → string.

Definition typeError (kind : TypeErrorKind) : Thrown :=
  ThrownError (Error (typeErrorMessage kind)).

Definition validationOf (schema : SchemaArg) (payload : Json) : Event :=
  match schema with
  | Registered s => EvValidate s payload
  | Inherited l => EvValidateInherited l payload
  end.

Definition callValidate (schema : SchemaArg) (payload : Json) : Exec unit :=
  emit (validationOf schema payload);;
  match validate schema payload with
  | Some e => throw e
  | None => ret tt
  end.

(** The call of an inherited member as if it were the handler. *)
Definition callInherited (l : Lookup) (req : PeerRequest) : Exec Json :=
  match inheritedMember runtime l with
  | ReadThrows e => throw e
  | ReadUndefined => throw (typeError (NotAFunction "handlers[version][method]"))
  | ReadValue _ =>
      match callMember runtime l with
      | None => throw (typeError (NotAFunction "handlers[version][method]"))
      | Some f =>
          emit (EvCallInherited l req);;
          match f req with
          | inl e => throw e
          | inr v => ret v
          end
      end
  end.

(** [handlers[version][method]({ app, service, req })] *)
Definition callHandler (version method : string) (req : PeerRequest) : Exec Json :=
  match handlers !! version with
  | Some byMethod =>
      match byMethod !! method with
      | Some handler =>
          emit (EvHandler version method req);;
          match handler req with
          | inl e => throw e
          | inr v => ret v
          end
      | None => callInherited (FromTable version method) req
      end
  | None =>
      match inheritedVersion runtime version with
      | ReadThrows e => throw e
      | ReadUndefined => throw (typeError (PropertyOfUndefined method))
      | ReadValue _ => callInherited (FromPrototype version method) req
      end
  end.

(** The schema registered for a version and a method, if any. *)
Definition schemaFor (version method : string) : option Schema :=
  match requestSchemas !! version with
  | Some byMethod => byMethod !! method
  | None => None
  end.

(** An inherited member as the second test [if (requestSchema)] sees it. *)
Definition inheritedSchema (l : Lookup) : Thrown + option SchemaArg :=
  match inheritedMember runtime l with
  | ReadThrows e => inl e
  | ReadValue true => inr (Some (Inherited l))
  | _ => inr None
  end.

(** What the two tests [if (requestSchemas[version])] and
    [if (requestSchema)] let through to [validate]: a registered schema,
    or a truthy inherited member where no schema is registered; a getter
    that throws is met on the way. *)
Definition schemaArgFor (version method : string) : Thrown + option SchemaArg :=
  match requestSchemas !! version with
  | Some byMethod =>
      match byMethod !! method with
      | Some requestSchema => inr (Some (Registered requestSchema))
      | None => inheritedSchema (FromTable version method)
      end
  | None =>
      match inheritedVersion runtime version with
      | ReadThrows e => inl e
      | ReadValue true => inheritedSchema (FromPrototype version method)
      | _ => inr None
      end
  end.

(** The first statement of the [try] block: validate when the lookup
    yields something truthy. *)
Definition validateRequest (version method : string) (req : PeerRequest) : Exec unit :=
  match schemaArgFor version method with
  | inl e => throw e
  | inr (Some requestSchema) => callValidate requestSchema (data req)
  | inr None => ret tt
  end.

(** The second statement: call the handler and reply with its result. *)
Definition invokeHandler (version method : string) (req : PeerRequest) : Exec PeerResponse :=
  v ← callHandler version method req;
  emit EvGetHeaders;;
  ret (ResOk (js_or v (JObj [])) getHeaders).

(** The body of the [try] block. *)
Definition dispatch (version method : string) (req : PeerRequest) : Exec PeerResponse :=
  validateRequest version method req;;
  invokeHandler version method req.

(** The [catch] block. Of [null] and [undefined] nothing is an instance,
    and reading their [message] throws out of the block. *)
Definition onError (req : PeerRequest) (thrown : Thrown) : Exec PeerResponse :=
  match thrown with
  | ThrownError error =>
      if isServerError error then ret (ResError error)
      else
        emit (EvLogError (message error));;
        ret (ResError (Error (endpoint req +:+ " responded with " +:+ message error)))
  | ThrownNull => throw (typeError (PropertyOfNull "message"))
  | ThrownUndefined => throw (typeError (PropertyOfUndefined "message"))
  end.

(** The listener [async (workerId, req, res) => ...] of ["workerMessage"]
    on a request whose endpoint is a string: its trace, and the reply
    [res] is called with or what the listener throws. *)
Definition workerMessage (workerId : nat) (req : PeerRequest) : Exec PeerResponse :=
  try_catch (dispatch (versionOf req) (methodOf req) req) (onError req).

(** The listener on a request object whose [endpoint] may be any value:
    [req.endpoint.split(".")] stands before the [try], so that an endpoint
    that is no string makes the listener throw. *)
Definition onWorkerMessage (workerId : nat) (rawEndpoint : Json) (rawData : Json)
  : Exec PeerResponse :=
  match rawEndpoint with
  | JStr endpoint => workerMessage workerId (mkPeerRequest endpoint rawData)
  | JUndefined => throw (typeError (PropertyOfUndefined "split"))
  | JNull => throw (typeError (PropertyOfNull "split"))
  | _ => throw (typeError (NotAFunction "req.endpoint.split"))
  end.

End Dispatch.

(** *** A small registry for the examples *)

Definition exampleTypeErrorMessage (k : TypeErrorKind) : string :=
  match k with
  | PropertyOfUndefined m => "Cannot read property '" +:+ m +:+ "' of undefined"
  | PropertyOfNull m => "Cannot read property '" +:+ m +:+ "' of null"
  | NotAFunction callee => callee +:+ " is not a function"
  end.

Definition exampleHandlers : gmap string (gmap string (PeerRequest → Thrown + Json)) :=
  {[ "peer" :=
       {[ "getStatus" := (λ _, inl (ThrownError (Error "ECONNREFUSED 10.0.0.5:5432")));
          "getPeers" := (λ _, inr (JArr [])) ]} ]}.

Definition exampleSchemas : gmap string (gmap string Schema) :=
  {[ "peer" := {[ "getPeers" := [("type", JStr "object")] ]} ]}.

(** Of what every object inherits, the part the examples touch:
    [constructor], which is [Object], and its [keys]; [Object.keys] of the
    argument [{ app, service, req }] is the list of these three names. *)
Definition exampleRuntime : Runtime :=
  {| inheritedVersion v :=
       if String.eqb v "constructor" then ReadValue true else ReadUndefined;
     inheritedMember l :=
       match l with
       | FromPrototype v m =>
           if String.eqb v "constructor" && String.eqb m "keys"
           then ReadValue true else ReadUndefined
       | FromTable _ _ => ReadUndefined
       end;
     callMember l :=
       match l with
       | FromPrototype v m =>
           if String.eqb v "constructor" && String.eqb m "keys"
           then Some (λ _, inr (JArr [JStr "app"; JStr "service"; JStr "req"]))
           else None
       | FromTable _ _ => None
       end |}.

(** A validator that accepts objects only, whatever the schema. *)
Definition exampleValidate (schema : SchemaArg) (payload : Json) : option Thrown :=
  match payload with
  | JObj _ => None
  | _ => Some (ThrownError (ServerError "Data validation error"))
  end.

Definition exampleWorkerMessage : nat → PeerRequest → Exec PeerResponse :=
  workerMessage exampleSchemas exampleHandlers exampleRuntime exampleValidate
    (JObj []) exampleTypeErrorMessage.

(** *** Server options *)

(** The process environment the function reads. *)
Record Env := mkEnv {
  CORE_ENV : option string;
  CORE_NETWORK_NAME : option string;
  dirname : string
}.

(** The third argument: only [config.server] is read. *)
Record Config := mkConfig { server : option (gmap string Json) }.

Definition relativeSocketPath (env : Env) : string :=
  match CORE_ENV env with
  | Some e => if String.eqb e "test" then "/../../dist/socket-server" else ""
  | None => ""
  end.

Definition environment (env : Env) : string :=
  match CORE_NETWORK_NAME env with
  | Some n => if String.eqb n "testnet" then "dev" else "prod"
  | None => "prod"
  end.

(** The first object literal of the spread. *)
Definition defaultOptions (env : Env) (getBlocksTimeout verifyTimeout : Z)
  : gmap string Json :=
  list_to_map
    [ ("appName", JStr "core-p2p");
      ("brokers", JNum 1);
      ("environment", JStr (environment env));
      ("rebootWorkerOnCrash", JBool true);
      ("workerController", JStr (dirname env +:+ relativeSocketPath env +:+ "/worker.js"));
      ("workers", JNum 2);
      ("wsEngine", JStr "ws");
      ("pingTimeout", JNum (Z.max getBlocksTimeout verifyTimeout));
      ("perMessageDeflate", JBool true);
      ("maxPayload", JNum (2 * 1024 * 1024)) ].

(** [{ ...{defaults}, ...config.server }]: a key of [config.server]
    replaces the default of the same name; spreading [undefined] adds
    nothing. *)
Definition serverOptions (env : Env) (getBlocksTimeout verifyTimeout : Z)
    (config : Config) : gmap string Json :=
  default ∅ (server config) ∪ defaultOptions env getBlocksTimeout verifyTimeout.

Definition pingTimeout (options : gmap string Json) : option Json :=
  options !! "pingTimeout".
Definition maxPayload (options : gmap string Json) : option Json :=
  options !! "maxPayload".

(** *** Startup: the timer, the ["ready"] event and the awaited promise *)

Inductive Promise (A : Type) :=
| Pending
| Fulfilled (value : A)
| Rejected (reason : JsError).
Arguments Pending {A}.
Arguments Fulfilled {A} value.
Arguments Rejected {A} reason.

(** The state of one call of [startSocketServer] on the event loop.
    [timer] is the due time of the armed [setTimeout], [uncaught] the
    exceptions thrown by callbacks that no promise or [try] encloses. *)
Record Startup := mkStartup {
  now : Z;
  options : gmap string Json;
  timer : option Z;
  returned : Promise (gmap string Json);
  injected : bool;
  uncaught : list JsError
}.

(** What the environment does next: time passes, or the transport emits
    ["ready"]. *)
Inductive LoopEvent :=
| Elapse (ms : Z)
| Ready.

Definition setupTimeout : Z := 10000%Z.
Definition setupTimeoutError : JsError :=
  Error "Socket server failed to setup in 10 seconds.".

(** The synchronous part of [startSocketServer], up to its [await]. *)
Definition startSocketServer (env : Env) (getBlocksTimeout verifyTimeout : Z)
    (config : Config) (t0 : Z) : Startup :=
  {| now := t0;
     options := serverOptions env getBlocksTimeout verifyTimeout config;
     timer := Some (t0 + setupTimeout)%Z;
     returned := Pending;
     injected := false;
     uncaught := [] |}.

(** The timer callback [() => { throw new Error(...) }] runs as a
    macrotask of its own: what it throws reaches neither the promise
    being awaited nor the caller, and is left to the process as an
    uncaught exception (what the host does with it, by default ending the
    process, is not part of this function). *)
Definition fireTimer (s : Startup) : Startup :=
  {| now := now s; options := options s; timer := None;
     returned := returned s; injected := injected s;
     uncaught := uncaught s ++ [setupTimeoutError] |}.

(** The code after the [await]: [clearTimeout], [payloadProcessor.inject]
    and [return]. *)
Definition onReady (s : Startup) : Startup :=
  match returned s with
  | Pending =>
      {| now := now s; options := options s; timer := None;
         returned := Fulfilled (options s); injected := true;
         uncaught := uncaught s |}
  | _ => s
  end.

Definition step (s : Startup) (ev : LoopEvent) : Startup :=
  match ev with
  | Elapse ms =>
      let s' := {| now := (now s + Z.max 0 ms)%Z; options := options s;
                   timer := timer s; returned := returned s;
                   injected := injected s; uncaught := uncaught s |} in
      match timer s with
      | Some due => if (due <=? now s')%Z then fireTimer s' else s'
      | None => s'
      end
  | Ready => onReady s
  end.

Definition run (s : Startup) (evs : list LoopEvent) : Startup :=
  foldl step s evs.

(** The time that passes in a sequence of waits. *)
Definition elapsed (waits : list Z) : Z :=
  foldr (λ ms acc, Z.max 0 ms + acc)%Z 0%Z waits.

(** The calls of a trace that build headers, respectively log an error. *)
Definition isGetHeaders (ev : Event) : bool :=
  match ev with EvGetHeaders => true | _ => false end.
Definition isLogError (ev : Event) : bool :=
  match ev with EvLogError _ => true | _ => false end.

(** Whether a string has no occurrence of a character. *)
Fixpoint lacks (sep : ascii) (s : string) : bool :=
  match s with
  | EmptyString => true
  | String c rest => negb (Ascii.eqb c sep) && lacks sep rest
  end.

(** What holds of a startup at every moment: [payloadProcessor.inject] has
    run exactly when the promise is fulfilled, and then with the server
    that was created; the promise is never rejected; the timer's error is
    thrown at most once; and while the timer is armed nothing has happened
    yet. *)
Definition startupInvariant (s : Startup) : Prop :=
  (injected s = true ↔ returned s = Fulfilled (options s))
  ∧ (∀ server, returned s = Fulfilled server → server = options s)
  ∧ (∀ e, returned s ≠ Rejected e)
  ∧ (uncaught s = [] ∨ uncaught s = [setupTimeoutError])
  ∧ (is_Some (timer s) → returned s = Pending ∧ uncaught s = []).

(** The keys of the first object literal of the spread. *)
Definition defaultKeys : list string :=
  [ "appName"; "brokers"; "environment"; "rebootWorkerOnCrash";
    "workerController"; "workers"; "wsEngine"; "pingTimeout";
    "perMessageDeflate"; "maxPayload" ].

(** The handler registered for a version and a method, if any. *)
Definition handlerFor (handlers : gmap string (gmap string (PeerRequest → Thrown + Json)))
    (version method : string) : option (PeerRequest → Thrown + Json) :=
  handlers !! version ≫= (λ byMethod, byMethod !! method).

End SocketServer.

(** ** The transaction store and the admission processor *)

Module Pool.

#[local] Open Scope nat_scope.

Definition Id : Type := string.

(** Modelled from the spec: the fields of a transaction the admission
    logic reads, as deserialising a raw payload yields them; the
    transaction classes are not among the sources. *)
Record Fields := mkFields {
  senderPublicKey : string;
  nonce : nat;
  fee : nat;
  priority : nat;
  typeGroup : nat;
  type : nat
}.

(** Modelled from the spec: PendingTransaction of the data model, whose
    declaration is not among the sources: id, the deserialised fields,
    the raw payload and the arrival sequence number. *)
Record PendingTransaction := mkPending {
  id : Id;
  fields : Fields;
  raw : string;
  arrival : nat
}.

(** Modelled from the spec: the Pool keyed by id, with the counter that
    hands out arrival sequence numbers; the store class is not among the
    sources. *)
Record Store := mkStore {
  pool : gmap Id PendingTransaction;
  arrivals : nat
}.

Definition empty : Store := mkStore ∅ 0.

(** Modelled from the spec: the reason of a rejection by the store. *)
Inductive RejectReason := Capacity.

(** Modelled from the spec: the three results of [add] in section 4.1,
    which the spec calls Admitted, AdmittedWithEviction and Rejected. *)
Inductive AddResult :=
| Added
| AddedWithEviction (evictedId : Id)
| Rejected (reason : RejectReason).

(** Modelled from the spec: query order is priority descending, then
    arrival ascending; [a] comes after [b] in it. *)
Definition ranksBelow (a b : PendingTransaction) : bool :=
  (priority (fields a) <? priority (fields b)) ||
  ((priority (fields a) =? priority (fields b)) && (arrival b <? arrival a)).

Definition lower (acc : option (Id * PendingTransaction))
    (e : Id * PendingTransaction) : option (Id * PendingTransaction) :=
  match acc with
  | None => Some e
  | Some m => if ranksBelow e.2 m.2 then Some e else Some m
  end.

(** Modelled from the spec: "the current minimum-priority entry", the
    last entry in query order. *)
Definition minEntry (p : gmap Id PendingTransaction)
  : option (Id * PendingTransaction) :=
  foldl lower None (map_to_list p).

(** Modelled from the spec: [add] of section 4.1. Below capacity the
    transaction is admitted; at capacity it replaces the minimum entry
    when its priority is strictly higher and is rejected otherwise. *)
Definition add (C : nat) (i : Id) (f : Fields) (r : string) (s : Store)
  : AddResult * Store :=
  let entry := mkPending i f r (arrivals s) in
  if size (pool s) <? C then
    (Added, mkStore (<[i := entry]> (pool s)) (S (arrivals s)))
  else
    match minEntry (pool s) with
    | Some (k, m) =>
        if priority (fields m) <? priority f then
          (AddedWithEviction k,
           mkStore (<[i := entry]> (delete k (pool s))) (S (arrivals s)))
        else (Rejected Capacity, s)
    | None => (Rejected Capacity, s)
    end.

(** Modelled from the spec: [remove(id) -> bool]. *)
Definition remove (i : Id) (s : Store) : bool * Store :=
  (bool_decide (is_Some (pool s !! i)), mkStore (delete i (pool s)) (arrivals s)).

(** Modelled from the spec: [get(id) -> tx | absent]. *)
Definition get (i : Id) (s : Store) : option PendingTransaction := pool s !! i.
(** Modelled from the spec: [has(id) -> bool]. *)
Definition has (i : Id) (s : Store) : bool := bool_decide (is_Some (pool s !! i)).

(** The operations that change a store: an addition or a removal. *)
Inductive Op :=
| OpAdd (i : Id) (f : Fields) (r : string)
| OpRemove (i : Id).

Definition apply (C : nat) (s : Store) (op : Op) : Store :=
  match op with
  | OpAdd i f r => (add C i f r s).2
  | OpRemove i => (remove i s).2
  end.

(** The stores that sequences of operations produce from the empty one. *)
Inductive reachable (C : nat) : Store → Prop :=
| reachable_empty : reachable C empty
| reachable_apply s op : reachable C s → reachable C (apply C s op).

(** *** The admission processor *)

(** Modelled from the spec: the per-candidate errors of section 7. *)
Inductive ProcessorError :=
| DeserializationError
| AlreadyExistsError
| UnsupportedTypeError
| HandlerValidationError (reason : string).

(** Modelled from the spec: the batch-level error of section 7. *)
Inductive BatchError := BatchMalformedError.

(** Modelled from the spec: ProcessorResult of the data model, the lists
    in the order in which ids were classified. *)
Record ProcessorResult := mkResult {
  accept : list Id;
  broadcast : list Id;
  excess : list Id;
  invalid : list Id;
  errors : gmap Id ProcessorError
}.

Definition noResult : ProcessorResult := mkResult [] [] [] [] ∅.

(** What holds of a result while a batch is being processed: broadcast ids
    are accepted ids, and errors are recorded for invalid ids only. *)
Definition consistent (res : ProcessorResult) : Prop :=
  broadcast res ⊆ accept res ∧ dom (errors res) ⊆ list_to_set (invalid res).

(** Modelled from the spec: one entry of the handler registry, its key and
    its semantic validation against the current state, [Some reason] when
    the transaction is refused. *)
Record Capability := mkCapability {
  key : string;
  validate : Id → Fields → Store → option string
}.

(** Modelled from the spec: what persists between batches, the store and
    the ids already broadcast once. *)
Record Node := mkNode {
  store : Store;
  broadcasted : gset Id
}.

Section Processor.
(** The pool capacity and the maximum batch size. *)
Variables (C maxBatch : nat).
(** The trusted routines: the content hash of a raw payload and its
    deserialisation ([None] when malformed). *)
Variable idOf : string → Id.
Variable deserialize : string → option Fields.
(** Ids known to be permanently settled. *)
Variable settled : Id → bool.
(** The handler registry, by (typeGroup, type). *)
Variable registry : nat * nat → option Capability.

(** Modelled from the spec: a candidate classified invalid, with its
    error. *)
Definition reject (i : Id) (e : ProcessorError) (res : ProcessorResult)
  : ProcessorResult :=
  mkResult (accept res) (broadcast res) (excess res)
           (invalid res ++ [i]) (<[i := e]> (errors res)).

(** Modelled from the spec: steps 1 to 5 of section 4.3 for one
    candidate. *)
Definition processOne (st : Node * ProcessorResult) (rawTx : string)
  : Node * ProcessorResult :=
  let '(node, res) := st in
  let i := idOf rawTx in
  match deserialize rawTx with
  | None => (node, reject i DeserializationError res)
  | Some f =>
      if has i (store node) || settled i then
        (node, reject i AlreadyExistsError res)
      else
        match registry (typeGroup f, type f) with
        | None => (node, reject i UnsupportedTypeError res)
        | Some capability =>
            match validate capability i f (store node) with
            | Some reason => (node, reject i (HandlerValidationError reason) res)
            | None =>
                match add C i f rawTx (store node) with
                | (Rejected _, s') =>
                    (mkNode s' (broadcasted node),
                     mkResult (accept res) (broadcast res)
                              (excess res ++ [i]) (invalid res) (errors res))
                | (_, s') =>
                    (mkNode s' ({[i]} ∪ broadcasted node),
                     mkResult (accept res ++ [i])
                              (if bool_decide (i ∈ broadcasted node)
                               then broadcast res else broadcast res ++ [i])
                              (excess res) (invalid res) (errors res))
                end
            end
        end
  end.

(** Modelled from the spec: [process] of section 4.3, whose class is
    not among the sources. A batch over the maximum size fails as a
    whole; otherwise the candidates are handled in input order by a
    fresh processor. *)
Definition process (candidates : list string) (node : Node)
  : BatchError + Node * ProcessorResult :=
  if maxBatch <? List.length candidates then inl BatchMalformedError
  else inr (foldl processOne (node, noResult) candidates).

(** The ids of a batch. *)
Definition inputIds (candidates : list string) : list Id :=
  idOf <$> candidates.

End Processor.

(** *** A small node for the examples *)

(** Payloads "A", "B" and "H" deserialise; everything else is malformed. *)
Definition exampleDeserialize (r : string) : option Fields :=
  if String.eqb r "A" then Some (mkFields "alice" 1 10 10 1 0)
  else if String.eqb r "B" then Some (mkFields "bob" 1 5 5 1 0)
  else if String.eqb r "H" then Some (mkFields "bob" 2 50 50 1 0)
  else None.

(** One registered type, which validates everything. *)
Definition exampleRegistry (k : nat * nat) : option Capability :=
  match k with
  | (1, 0) => Some (mkCapability "transfer" (λ _ _ _, None))
  | _ => None
  end.

(** A node with the given capacity, batches of at most 40, and the raw
    payload as its own id. *)
Definition exampleProcess (C : nat) (candidates : list string) (node : Node)
  : BatchError + Node * ProcessorResult :=
  process C 40 (λ r, r) exampleDeserialize (λ _, false) exampleRegistry
          candidates node.

End Pool.

(** ** The REST controller for transactions *)

Module Api.

(** [Interfaces.ITransaction]: only [id] and [data] are read. *)
Record ITransaction := mkTransaction { id : string; data : Json }.

(** [Contracts.Database.ListPage] *)
Record ListPage := mkListPage { offset : Z; limit : Z }.

(** The first argument of [toPagination]. *)
Record ResultsPage := mkResultsPage {
  rows : list Json;
  count : nat;
  countIsEstimate : bool
}.

(** The parts of a [Hapi.Request] the three operations read. *)
Record Request := mkRequest {
  params_id : string;
  query_transform : Json;
  payload_transactions : list string
}.

(** The [data] member of the body [store] returns. *)
Record StoreData := mkStoreData {
  accept : list string;
  broadcast : list string;
  excess : list string;
  invalid : list string
}.

(** What an operation resolves with. The helpers of the [Controller]
    base class and of Boom are kept as symbolic calls. *)
Inductive Reply :=
| notFound (msg : string)
| respondWithResource (resource : Json) (transform : bool)
| toPagination (page : ResultsPage) (transform : bool)
| body (data : StoreData) (errors : gmap string Pool.ProcessorError).

(** [arr.slice(start, end)] on integers: a negative index counts from
    the end, and both are clamped to the array. *)
Definition slice {A} (arr : list A) (start end_ : Z) : list A :=
  let len := Z.of_nat (List.length arr) in
  let k := if (start <? 0)%Z then Z.max (len + start) 0 else Z.min start len in
  let final := if (end_ <? 0)%Z then Z.max (len + end_) 0 else Z.min end_ len in
  take (Z.to_nat (final - k)) (drop (Z.to_nat k) arr).

(** Modelled from the spec: the query iterable of section 4.2, whose
    class is not among the sources, is a finite sequence; [whereId] is its
    filter by id. *)
Definition whereId (i : string) (q : list ITransaction) : list ITransaction :=
  filter (λ t, id t = i) q.
(** Modelled from the spec: [has()], whether the sequence has an element. *)
Definition hasTransaction (q : list ITransaction) : bool :=
  match q with [] => false | _ :: _ => true end.
(** Modelled from the spec: [first()], the first element of the sequence;
    the spec does not say what it does on an empty one, where it is taken
    to throw. *)
Definition first (q : list ITransaction) : JsError + ITransaction :=
  match q with
  | [] => inl (Error "Transaction not found")
  | t :: _ => inr t
  end.

Section Controller.
(** The state of the injected services. *)
Variable World : Type.
(** [poolQuery.getFromHighestPriority()], a snapshot of the pool. *)
Variable getFromHighestPriority : World → list ITransaction.
(** [createProcessor()] followed by [process]: a batch-level error, or
    the fields of the processor afterwards. *)
Variable process :
  list string → World → World * (JsError + Pool.ProcessorResult).
(** [getListPage] of the base class. *)
Variable getListPage : Request → ListPage.

(** An operation: the new state of the services, and what the returned
    promise settles with. *)
Definition Action : Type := World → World * (JsError + Reply).

Definition store (request : Request) : Action := λ w,
  match process (payload_transactions request) w with
  | (w', inl e) => (w', inl e)
  | (w', inr processor) =>
      (w', inr (body
                  {| accept := Pool.accept processor;
                     broadcast := Pool.broadcast processor;
                     excess := Pool.excess processor;
                     invalid := Pool.invalid processor |}
                  (Pool.errors processor)))
  end.

Definition unconfirmed (request : Request) : Action := λ w,
  let pagination := getListPage request in
  let all := getFromHighestPriority w in
  let transactions :=
    slice all (offset pagination) (offset pagination + limit pagination)%Z in
  let rows := data <$> transactions in
  (w, inr (toPagination
             {| rows := rows; count := List.length all; countIsEstimate := false |}
             (truthy (query_transform request)))).

Definition showUnconfirmed (request : Request) : Action := λ w,
  let transactionQuery := whereId (params_id request) (getFromHighestPriority w) in
  if negb (hasTransaction transactionQuery) then (w, inr (notFound "Transaction not found"))
  else
    match first transactionQuery with
    | inl e => (w, inl e)
    | inr transaction =>
        (w, inr (respondWithResource (data transaction)
                   (truthy (query_transform request))))
    end.

End Controller.

(** The processor the factory creates on a node: [Pool.process] on a fresh
    result, a batch-level failure being what [process] throws. *)
Definition poolProcessor (C maxBatch : nat) (idOf : string → Pool.Id)
    (deserialize : string → option Pool.Fields) (settled : Pool.Id → bool)
    (registry : nat * nat → option Pool.Capability)
    (candidates : list string) (node : Pool.Node)
  : Pool.Node * (JsError + Pool.ProcessorResult) :=
  match Pool.process C maxBatch idOf deserialize settled registry candidates node with
  | inl Pool.BatchMalformedError => (node, inl (Error "BatchMalformedError"))
  | inr (node', res) => (node', inr res)
  end.

(** The rows a reply passes to [toPagination]. *)
Definition repliedRows (r : JsError + Reply) : list Json :=
  match r with
  | inr (toPagination page _) => rows page
  | _ => []
  end.

(** *** The handler listings: [types], [schemas] and [fees] *)

(** The static members of a handler's constructor that the listings
    read, [None] standing for [undefined]: [getSchema] is
    [constructor.getSchema().properties], and [staticFee h] is
    [constructor.staticFee({ height: h }).toFixed()]. *)
Record TransactionConstructor := mkConstructor {
  type : option Z;
  typeGroup : option Z;
  key : option string;
  getSchema : Json;
  staticFee : Z → string
}.

(** [for (const x of items) { ... }] over an accumulator; a throw in the
    body ends the loop. *)
Fixpoint forOf {A S} (body : S → A → JsError + S) (items : list A) (acc : S)
  : JsError + S :=
  match items with
  | [] => inr acc
  | x :: rest =>
      match body acc x with
      | inl e => inl e
      | inr acc' => forOf body rest acc'
      end
  end.

(** The key under which every object inherits the accessor of its
    prototype. *)
Definition isProto (k : string) : bool := String.eqb k "__proto__".

(** [if (o[g] === undefined) { o[g] = {}; } o[g][k] = v;] for a group [g]
    that is a number. An assignment under the key "__proto__" goes to the
    setter that [o[g]] inherits, which ignores a number and a string: the
    group is there, and no entry is made. [reserved] tells that key among
    the keys of [K]. *)
Definition assign {K V} `{Countable K} (reserved : K → bool) (g : Z) (k : K) (v : V)
    (o : gmap Z (gmap K V)) : gmap Z (gmap K V) :=
  let group := default ∅ (o !! g) in
  <[g := if reserved k then group else <[k := v]> group]> o.

(** [o[g][k]], where there is an [o[g]]. *)
Definition lookup2 {K V} `{Countable K} (o : gmap Z (gmap K V)) (g : Z) (k : K)
  : option V :=
  o !! g ≫= (λ byKey, byKey !! k).

(** One iteration of a listing: read and check the members of the
    constructor, which may throw, then assign. *)
Definition collect {K V} `{Countable K} (reserved : K → bool)
    (entry : TransactionConstructor → JsError + Z * K * V)
    (acc : gmap Z (gmap K V)) (c : TransactionConstructor)
  : JsError + gmap Z (gmap K V) :=
  match entry c with
  | inl e => inl e
  | inr (g, k, v) => inr (assign reserved g k v acc)
  end.

Section Listings.
(** The state of the application. *)
Variable World : Type.
(** The constructors of [getActivatedHandlers()], in its order. *)
Variable getActivatedHandlers : World → list TransactionConstructor.
(** [getLastHeight()] of the state store. *)
Variable getLastHeight : World → Z.
(** [toUpperCase] on a string of one character. *)
Variable toUpperCase : string → string.
(** What [AppUtils.assert.defined] throws, and the [TypeError] of calling
    [toUpperCase] on [undefined]. *)
Variable assertionError : JsError.
Variable typeError : JsError.

(** [AppUtils.assert.defined(value)] *)
Definition assertDefined {A} (value : option A) : JsError + A :=
  match value with
  | Some a => inr a
  | None => inl assertionError
  end.

(** [key[0].toUpperCase() + key.slice(1)]: [key[0]] of the empty string is
    [undefined]. *)
Definition capitalize (k : string) : JsError + string :=
  match k with
  | EmptyString => inl typeError
  | String c rest => inr (toUpperCase (String c EmptyString) +:+ rest)
  end.

(** The body of the loop of [types] up to its assignment. *)
Definition typesEntry (c : TransactionConstructor) : JsError + Z * string * Z :=
  match assertDefined (type c) with
  | inl e => inl e
  | inr type =>
      match assertDefined (typeGroup c) with
      | inl e => inl e
      | inr typeGroup =>
          match assertDefined (key c) with
          | inl e => inl e
          | inr key =>
              match capitalize key with
              | inl e => inl e
              | inr name => inr (typeGroup, name, type)
              end
          end
      end
  end.

(** The [data] of what [types] returns: the values are numbers. *)
Definition types (w : World) : JsError + gmap Z (gmap string Z) :=
  forOf (collect isProto typesEntry) (getActivatedHandlers w) ∅.

(** The body of the loop of [schemas] up to its assignment. *)
Definition schemasEntry (c : TransactionConstructor) : JsError + Z * Z * Json :=
  match assertDefined (type c) with
  | inl e => inl e
  | inr type =>
      match assertDefined (typeGroup c) with
      | inl e => inl e
      | inr typeGroup => inr (typeGroup, type, getSchema c)
      end
  end.

(** The [data] of what [schemas] returns: the keys are numbers, none of
    them reserved. *)
Definition schemas (w : World) : JsError + gmap Z (gmap Z Json) :=
  forOf (collect (λ _, false) schemasEntry) (getActivatedHandlers w) ∅.

(** The body of the loop of [fees] up to its assignment, for the height
    read before the loop. *)
Definition feesEntry (currentHeight : Z) (c : TransactionConstructor)
  : JsError + Z * string * string :=
  match assertDefined (typeGroup c) with
  | inl e => inl e
  | inr typeGroup =>
      match assertDefined (key c) with
      | inl e => inl e
      | inr key => inr (typeGroup, key, staticFee c currentHeight)
      end
  end.

(** The [data] of what [fees] returns: the values are strings. *)
Definition fees (w : World) : JsError + gmap Z (gmap string string) :=
  let currentHeight := getLastHeight w in
  forOf (collect isProto (feesEntry currentHeight)) (getActivatedHandlers w) ∅.

End Listings.

(** [toUpperCase] on one character of the Latin alphabet. *)
Definition exampleToUpperCase (s : string) : string :=
  match s with
  | String c EmptyString =>
      let n := nat_of_ascii c in
      if (97 <=? n)%nat && (n <=? 122)%nat
      then String (ascii_of_nat (n - 32)) EmptyString else s
  | _ => s
  end.

(** Three activated handlers in two groups. *)
Definition exampleConstructors : list TransactionConstructor :=
  [ mkConstructor (Some 0%Z) (Some 1%Z) (Some "transfer") (JObj [])
      (λ _, "10000000");
    mkConstructor (Some 3%Z) (Some 1%Z) (Some "vote") (JObj [])
      (λ _, "100000000");
    mkConstructor (Some 0%Z) (Some 2%Z) (Some "businessRegistration") (JObj [])
      (λ _, "5000000000") ].

(** Pages for the examples, chosen by the id of the request: "first" is
    offset 0 with limit 1, "second" offset 1 with limit 2, "past" starts
    behind the pool, anything else is offset 0 with limit 3. *)
Definition exampleListPage (request : Request) : ListPage :=
  if String.eqb (params_id request) "first" then mkListPage 0 1
  else if String.eqb (params_id request) "second" then mkListPage 1 2
  else if String.eqb (params_id request) "past" then mkListPage 9 2
  else mkListPage 0 3.

(** *** A small pool for the examples *)

Definition examplePool : list ITransaction :=
  [ mkTransaction "a1" (JObj [("fee", JNum 50)]);
    mkTransaction "b2" (JObj [("fee", JNum 40)]);
    mkTransaction "c3" (JObj [("fee", JNum 30)]);
    mkTransaction "d4" (JObj [("fee", JNum 20)]) ].

End Api.

(** ** The REST controller for wallets *)

Module Wallets.

(** [Contracts.State.Wallet]: the members the controller reads, [None]
    standing for an [undefined] public key. *)
Record Wallet := mkWallet { address : string; publicKey : option string }.

(** [Contracts.State.SearchScope], as far as it is used here. *)
Inductive SearchScope := ScopeWallets | ScopeLocks.

(** The resource classes handed to the helpers of the base class. *)
Inductive Resource := WalletResource | TransactionResource | LockResource.

(** The parts of a [Hapi.Request] the operations read. *)
Record WalletRequest := mkWalletRequest {
  params : gmap string Json;
  query : gmap string Json;
  payload : gmap string Json
}.

(** [o.k] for a key that may be missing. *)
Definition prop (o : gmap string Json) (k : string) : Json :=
  default JUndefined (o !! k).

(** What an operation resolves with: [notFound(msg)] of Boom, and the
    calls of [respondWithResource] and [toPagination] of the base class,
    kept symbolic; a [transform] that is not passed is [undefined]. *)
Inductive WalletReply :=
| replyNotFound (msg : string)
| replyResource (wallet : Wallet) (resource : Resource)
| replyPagination (result : Api.ResultsPage) (resource : Resource) (transform : Json).

(** [{ rows: [], count: 0, countIsEstimate: false }] *)
Definition emptyPage : Api.ResultsPage := Api.mkResultsPage [] 0 false.

(** [!wallet.publicKey] is false: the key is there and not empty. *)
Definition hasPublicKey (wallet : Wallet) : bool :=
  match publicKey wallet with
  | Some k => negb (String.eqb k "")
  | None => false
  end.

(** The public key as a string, once [hasPublicKey] holds. *)
Definition publicKeyOf (wallet : Wallet) : string := default "" (publicKey wallet).

Section Controller.
(** [walletRepository.findByScope], which throws for an unknown id,
    [walletRepository.search] and [walletRepository.top]. *)
Variable findByScope : SearchScope → Json → JsError + Wallet.
Variable search : SearchScope → gmap string Json → JsError + Api.ResultsPage.
Variable top : SearchScope → gmap string Json → JsError + Api.ResultsPage.
(** The four listings of [transactionHistoryService]: subject, criteria,
    order, page. *)
Variable listByWalletAndCriteria :
  Wallet → gmap string Json → Json → gmap string Json → JsError + Api.ResultsPage.
Variable listBySenderPublicKeyAndCriteria :
  string → gmap string Json → Json → gmap string Json → JsError + Api.ResultsPage.
Variable listByRecipientIdAndCriteria :
  string → gmap string Json → Json → gmap string Json → JsError + Api.ResultsPage.
Variable listVoteBySenderPublicKeyAndCriteria :
  string → gmap string Json → Json → gmap string Json → JsError + Api.ResultsPage.
(** [getListingOrder] and [getListingPage] of the base class. *)
Variable getListingOrder : WalletRequest → Json.
Variable getListingPage : WalletRequest → gmap string Json.

(** [findWallet]: the wallet, or the Boom reply when the repository
    throws, whatever it throws. *)
Definition findWallet (id : Json) : WalletReply + Wallet :=
  match findByScope ScopeWallets id with
  | inr wallet => inr wallet
  | inl _ => inl (replyNotFound "Wallet not found")
  end.

(** [toPagination(result, resource, transform)] on a listing that may
    throw. *)
Definition paginate (result : JsError + Api.ResultsPage) (resource : Resource)
    (transform : Json) : JsError + WalletReply :=
  match result with
  | inl e => inl e
  | inr page => inr (replyPagination page resource transform)
  end.

(** [{ ...request.query, ...this.getListingPage(request) }] *)
Definition indexCriteria (request : WalletRequest) : gmap string Json :=
  getListingPage request ∪ query request.

Definition index (request : WalletRequest) : JsError + WalletReply :=
  paginate (search ScopeWallets (indexCriteria request)) WalletResource JUndefined.

(** The operation [top]. *)
Definition topWallets (request : WalletRequest) : JsError + WalletReply :=
  paginate (top ScopeWallets (getListingPage request)) WalletResource JUndefined.

Definition show (request : WalletRequest) : JsError + WalletReply :=
  match findWallet (prop (params request) "id") with
  | inl boom => inr boom
  | inr wallet => inr (replyResource wallet WalletResource)
  end.

Definition transactions (request : WalletRequest) : JsError + WalletReply :=
  match findWallet (prop (params request) "id") with
  | inl boom => inr boom
  | inr wallet =>
      paginate
        (listByWalletAndCriteria wallet (query request) (getListingOrder request)
           (getListingPage request))
        TransactionResource (prop (query request) "transform")
  end.

Definition transactionsSent (request : WalletRequest) : JsError + WalletReply :=
  match findWallet (prop (params request) "id") with
  | inl boom => inr boom
  | inr wallet =>
      if negb (hasPublicKey wallet) then
        inr (replyPagination emptyPage TransactionResource JUndefined)
      else
        paginate
          (listBySenderPublicKeyAndCriteria (publicKeyOf wallet) (query request)
             (getListingOrder request) (getListingPage request))
          TransactionResource (prop (query request) "transform")
  end.

Definition transactionsReceived (request : WalletRequest) : JsError + WalletReply :=
  match findWallet (prop (params request) "id") with
  | inl boom => inr boom
  | inr wallet =>
      if negb (hasPublicKey wallet) then
        inr (replyPagination emptyPage TransactionResource JUndefined)
      else
        paginate
          (listByRecipientIdAndCriteria (address wallet) (query request)
             (getListingOrder request) (getListingPage request))
          TransactionResource (prop (query request) "transform")
  end.

Definition votes (request : WalletRequest) : JsError + WalletReply :=
  match findWallet (prop (params request) "id") with
  | inl boom => inr boom
  | inr wallet =>
      if negb (hasPublicKey wallet) then
        inr (replyPagination emptyPage TransactionResource JUndefined)
      else
        paginate
          (listVoteBySenderPublicKeyAndCriteria (publicKeyOf wallet) (query request)
             (getListingOrder request) (getListingPage request))
          TransactionResource JUndefined
  end.

(** [{ ...request.params, ...request.query, ...this.getListingPage(request),
    senderPublicKey: wallet.publicKey }] *)
Definition locksCriteria (request : WalletRequest) (wallet : Wallet)
  : gmap string Json :=
  <["senderPublicKey" := JStr (publicKeyOf wallet)]>
    (getListingPage request ∪ (query request ∪ params request)).

Definition locks (request : WalletRequest) : JsError + WalletReply :=
  match findWallet (prop (params request) "id") with
  | inl boom => inr boom
  | inr wallet =>
      if negb (hasPublicKey wallet) then
        inr (replyPagination emptyPage LockResource JUndefined)
      else
        paginate (search ScopeLocks (locksCriteria request wallet))
          LockResource JUndefined
  end.

(** [{ ...request.payload, ...request.query, ...this.getListingPage(request) }] *)
Definition searchCriteria (request : WalletRequest) : gmap string Json :=
  getListingPage request ∪ (query request ∪ payload request).

(** The operation [search]. *)
Definition searchWallets (request : WalletRequest) : JsError + WalletReply :=
  paginate (search ScopeWallets (searchCriteria request)) WalletResource JUndefined.

End Controller.

(** *** A small repository for the examples *)

(** Two wallets: "cold" has received but never sent and has no public
    key, "hot" has one; any other id is unknown. *)
Definition exampleFindByScope (scope : SearchScope) (id : Json) : JsError + Wallet :=
  match id with
  | JStr s =>
      if String.eqb s "cold" then inr (mkWallet "AcoldAddress" None)
      else if String.eqb s "hot" then inr (mkWallet "AhotAddress" (Some "02ab"))
      else inl (Error "Wallet does not exist")
  | _ => inl (Error "Wallet does not exist")
  end.

(** A history service and a search that always have one row. *)
Definition exampleList {A} (subject : A) (criteria : gmap string Json) (order : Json)
    (page : gmap string Json) : JsError + Api.ResultsPage :=
  inr (Api.mkResultsPage [JStr "row"] 1 false).
Definition exampleSearch (scope : SearchScope) (criteria : gmap string Json)
  : JsError + Api.ResultsPage :=
  inr (Api.mkResultsPage [JStr "row"] 1 false).

(** A request for one wallet. *)
Definition requestFor (id : string) : WalletRequest :=
  mkWalletRequest {[ "id" := JStr id ]} ∅ ∅.

End Wallets.

(** ** The local configuration loader *)

Module LocalConfigLoader.

(** The exceptions of ["exceptions/config"]. *)
Inductive ConfigException :=
| ApplicationConfigurationCannotBeLoaded
| EnvironmentConfigurationCannotBeLoaded (stack : string).

(** What the loader does to the outside: a search of cosmiconfig, and
    [app.config(key, value)]. *)
Inductive Effect :=
| EvSearch (searchPlaces : list string) (stopDir : string)
| EvConfig (key : string) (value : Json).

Definition isConfig (ev : Effect) : bool :=
  match ev with EvConfig _ _ => true | _ => false end.
Definition isSearch (ev : Effect) : bool :=
  match ev with EvSearch _ _ => true | _ => false end.

(** Code that may throw, with the effects it had until then. *)
Definition Load (A : Type) : Type := list Effect * (JsError + A).

Definition andThen {A B} (m : Load A) (k : A → Load B) : Load B :=
  match m with
  | (t, inl e) => (t, inl e)
  | (t, inr a) => let '(t', r) := k a in (t ++ t', r)
  end.

Section Loader.
(** [app.configPath(file)], [app.configPath()] for [None]. *)
Variable configPath : option string → string.
(** [cosmiconfig(app.namespace(), { searchPlaces, stopDir }).searchSync()]:
    it may throw, find nothing ([null]), or find a result, of which only
    [config] is read. *)
Variable searchSync : list string → string → JsError + option Json.
(** The [TypeError] of reading [config] of [null]. *)
Variable typeError : JsError.

Definition loadFromLocation (searchPlaces : list string) : Load Json :=
  ([EvSearch searchPlaces (configPath None)],
   match searchSync searchPlaces (configPath None) with
   | inl e => inl e
   | inr None => inl typeError
   | inr (Some config) => inr config
   end).

(** [this.app.config(key, value)] *)
Definition appConfig (key : string) (value : Json) : Load unit :=
  ([EvConfig key value], inr tt).

Definition packagesPlaces : list string :=
  [configPath (Some "packages.json"); configPath (Some "packages.js")].
Definition peersPlaces : list string := [configPath (Some "peers.json")].
Definition delegatesPlaces : list string := [configPath (Some "delegates.json")].

Definition loadServiceProviders : Load unit :=
  andThen (loadFromLocation packagesPlaces) (appConfig "packages").

Definition loadPeers : Load unit :=
  andThen (loadFromLocation peersPlaces) (appConfig "peers").

Definition loadDelegates : Load unit :=
  andThen (loadFromLocation delegatesPlaces) (appConfig "delegates").

(** [loadConfiguration]: the three loads in a [try], and a [catch] that
    drops what was thrown. *)
Definition loadConfiguration : list Effect * (ConfigException + unit) :=
  match andThen loadServiceProviders (λ _, andThen loadPeers (λ _, loadDelegates)) with
  | (t, inl _) => (t, inl ApplicationConfigurationCannotBeLoaded)
  | (t, inr u) => (t, inr u)
  end.

(** What a search finds, if it finds anything. *)
Definition found (searchPlaces : list string) : option Json :=
  match searchSync searchPlaces (configPath None) with
  | inr (Some config) => Some config
  | _ => None
  end.

End Loader.

End LocalConfigLoader.

(** * Properties *)

(** ** The peer socket server *)

Module SocketServerProofs.
Import SocketServer.

Ltac exec_simpl :=
  unfold mbind, mret, Exec_bind, Exec_ret, bind, ret, throw, emit,
         try_catch, trace, outcome in *; simpl in *.

(** Splits a goal about the listener along every branch of the [try] and
    [catch] blocks. *)
Ltac dispatch_cases :=
  unfold workerMessage, dispatch, validateRequest, schemaArgFor, inheritedSchema,
         callValidate, validationOf, invokeHandler, callHandler, callInherited, onError,
         handlerFor, schemaFor in *;
  repeat (exec_simpl;
          match goal with
          | |- context [match ?x with _ => _ end] =>
              lazymatch x with
              | context [match _ with _ => _ end] => fail
              | _ => destruct x eqn:?
              end
          end);
  exec_simpl.

Section Dispatch.
Variable requestSchemas : gmap string (gmap string Schema).
Variable handlers : gmap string (gmap string (PeerRequest → Thrown + Json)).
Variable runtime : Runtime.
Variable validate : SchemaArg → Json → option Thrown.
Variable getHeaders : Json.
Variable typeErrorMessage : TypeErrorKind → string.

Abbreviation wm :=
  (workerMessage requestSchemas handlers runtime validate getHeaders typeErrorMessage).
Abbreviation tryBlock req :=
  (dispatch requestSchemas handlers runtime validate getHeaders typeErrorMessage
     (versionOf req) (methodOf req) req).

(** What the [catch] block replies for a thrown error [e]. *)
Lemma try_catch_onError (t : list Event) (e : JsError) req :
  try_catch ((t, inl (ThrownError e)) : Exec PeerResponse)
    (onError typeErrorMessage req) =
    if isServerError e then (t, inr (ResError e))
    else (t ++ [EvLogError (message e)],
          inr (ResError (Error (endpoint req +:+ " responded with " +:+ message e)))).
Proof.
  unfold onError. exec_simpl. destruct (isServerError e); simpl; [|done].
  by rewrite app_nil_r.
Qed.

Lemma workerMessage_any_worker (w : nat) req : wm w req = wm 0%nat req.
Proof. reflexivity. Qed.

(** C4 (as amended): an error thrown inside the [try] block reaches the
    peer unchanged when it is a [ServerError]; any other error has its
    message logged, and the peer receives a new error whose message is the
    endpoint, the words " responded with ", and the message of the original
    error. *)
Theorem workerMessage_error_reply (workerId : nat) req (t : list Event) (e : JsError) :
  tryBlock req = (t, inl (ThrownError e)) →
  wm workerId req =
    if isServerError e then (t, inr (ResError e))
    else (t ++ [EvLogError (message e)],
          inr (ResError (Error (endpoint req +:+ " responded with " +:+ message e)))).
Proof.
  intros Hd. unfold workerMessage. rewrite Hd. apply try_catch_onError.
Qed.

(** Two requests that agree on version, method and payload, and that the
    handler they select treats alike, leave the [try] block alike. *)
Lemma dispatch_namespace req1 req2 :
  versionOf req1 = versionOf req2 →
  methodOf req1 = methodOf req2 →
  data req1 = data req2 →
  (∀ byMethod handler,
     handlers !! versionOf req1 = Some byMethod →
     byMethod !! methodOf req1 = Some handler →
     handler req1 = handler req2) →
  (∀ l f,
     l = FromTable (versionOf req1) (methodOf req1) ∨
     l = FromPrototype (versionOf req1) (methodOf req1) →
     callMember runtime l = Some f →
     f req1 = f req2) →
  outcome (tryBlock req2) = outcome (tryBlock req1).
Proof.
  intros Hv Hm Hd Hh Hc. rewrite <- Hv, <- Hm.
  unfold dispatch, validateRequest, callValidate, invokeHandler, callHandler,
         callInherited.
  rewrite <- Hd.
  destruct (schemaArgFor _ _ _ _) as [e|[schema|]]; [by exec_simpl| |].
  all: try (destruct (validate schema (data req1)) as [e|]; [by exec_simpl|]).
  all: destruct (handlers !! versionOf req1) as [byMethod|] eqn:Hb.
  all: try (destruct (byMethod !! methodOf req1) as [handler|] eqn:Hl;
            [rewrite <- (Hh _ _ eq_refl Hl); by destruct (handler req1); exec_simpl|]).
  all: try (destruct (inheritedVersion runtime (versionOf req1)); [by exec_simpl..|]).
  all: (destruct (inheritedMember runtime _); [by exec_simpl..|]).
  all: match goal with
       | |- context [callMember runtime ?l] =>
           destruct (callMember runtime l) as [f|] eqn:Hf; [|by exec_simpl];
           rewrite <- (Hc l f ltac:(auto) Hf); by destruct (f req1); exec_simpl
       end.
Qed.

(** C9 (as amended): two requests with the same version, method and
    payload select the same schema and the same handler; when that handler
    treats them alike, the [try] block has the same outcome for both, a
    success or a [ServerError] is replied identically, and any other error
    is replied with the same text after each request's own endpoint. Of a
    thrown [null] or [undefined] neither request gets a reply. *)
Theorem workerMessage_namespace (workerId : nat) req1 req2 :
  versionOf req1 = versionOf req2 →
  methodOf req1 = methodOf req2 →
  data req1 = data req2 →
  (∀ byMethod handler,
     handlers !! versionOf req1 = Some byMethod →
     byMethod !! methodOf req1 = Some handler →
     handler req1 = handler req2) →
  (∀ l f,
     l = FromTable (versionOf req1) (methodOf req1) ∨
     l = FromPrototype (versionOf req1) (methodOf req1) →
     callMember runtime l = Some f →
     f req1 = f req2) →
  schemaFor requestSchemas (versionOf req1) (methodOf req1) =
    schemaFor requestSchemas (versionOf req2) (methodOf req2)
  ∧ schemaArgFor requestSchemas runtime (versionOf req1) (methodOf req1) =
      schemaArgFor requestSchemas runtime (versionOf req2) (methodOf req2)
  ∧ match outcome (tryBlock req1) with
    | inr r =>
        outcome (wm workerId req1) = inr r ∧ outcome (wm workerId req2) = inr r
    | inl (ThrownError e) =>
        if isServerError e then
          outcome (wm workerId req1) = inr (ResError e) ∧
          outcome (wm workerId req2) = inr (ResError e)
        else
          outcome (wm workerId req1) =
            inr (ResError (Error (endpoint req1 +:+ " responded with " +:+ message e))) ∧
          outcome (wm workerId req2) =
            inr (ResError (Error (endpoint req2 +:+ " responded with " +:+ message e)))
    | inl _ =>
        (∃ kind, outcome (wm workerId req1) = inl (typeError typeErrorMessage kind)) ∧
        outcome (wm workerId req2) = outcome (wm workerId req1)
    end.
Proof.
  intros Hv Hm Hd Hh Hc.
  split; [by rewrite Hv, Hm|]. split; [by rewrite Hv, Hm|].
  pose proof (dispatch_namespace req1 req2 Hv Hm Hd Hh Hc) as Heq.
  unfold workerMessage.
  destruct (dispatch _ _ _ _ _ _ (versionOf req2) _ _) as [t2 [e2|r2]];
    destruct (dispatch _ _ _ _ _ _ (versionOf req1) _ _) as [t1 [e1|r1]];
    unfold outcome in Heq; simpl in Heq; simplify_eq; [|done].
  destruct e1 as [e1| |].
  - rewrite !try_catch_onError. unfold outcome at 1. simpl.
    by destruct (isServerError e1).
  - unfold outcome at 1. simpl. split; [by eexists|done].
  - unfold outcome at 1. simpl. split; [by eexists|done].
Qed.

End Dispatch.

(** A handler that throws an internal error: its message is logged and
    forwarded behind the endpoint. *)
Lemma workerMessage_error_reply_witness :
  dispatch exampleSchemas exampleHandlers exampleRuntime exampleValidate (JObj [])
    exampleTypeErrorMessage "peer" "getStatus"
    (mkPeerRequest "p2p.peer.getStatus" JNull) =
    ([EvHandler "peer" "getStatus" (mkPeerRequest "p2p.peer.getStatus" JNull)],
     inl (ThrownError (Error "ECONNREFUSED 10.0.0.5:5432")))
  ∧ exampleWorkerMessage 0%nat (mkPeerRequest "p2p.peer.getStatus" JNull) =
      ([EvHandler "peer" "getStatus" (mkPeerRequest "p2p.peer.getStatus" JNull);
        EvLogError "ECONNREFUSED 10.0.0.5:5432"],
       inr (ResError (Error "p2p.peer.getStatus responded with ECONNREFUSED 10.0.0.5:5432"))).
Proof.
  split; [vm_compute; reflexivity|].
  apply (workerMessage_error_reply exampleSchemas exampleHandlers exampleRuntime
           exampleValidate (JObj []) exampleTypeErrorMessage 0%nat
           (mkPeerRequest "p2p.peer.getStatus" JNull)
           [EvHandler "peer" "getStatus" (mkPeerRequest "p2p.peer.getStatus" JNull)]
           (Error "ECONNREFUSED 10.0.0.5:5432")).
  vm_compute; reflexivity.
Defined.

(** C4 as stated fails: the text of an internal error is part of what the
    peer receives, and two internal errors on one endpoint are told apart
    by the peer. *)
Lemma workerMessage_forwards_message :
  let req := mkPeerRequest "p2p.peer.getStatus" JNull in
  let failing (msg : string) : gmap string (gmap string (PeerRequest → Thrown + Json)) :=
    {[ "peer" := {[ "getStatus" := (λ _, inl (ThrownError (Error msg))) ]} ]} in
  let reply (msg : string) :=
    outcome (workerMessage ∅ (failing msg) exampleRuntime exampleValidate (JObj [])
               exampleTypeErrorMessage 0%nat req) in
  reply "ECONNREFUSED 10.0.0.5:5432" =
    inr (ResError (Error "p2p.peer.getStatus responded with ECONNREFUSED 10.0.0.5:5432"))
  ∧ includes "ECONNREFUSED 10.0.0.5:5432"
      "p2p.peer.getStatus responded with ECONNREFUSED 10.0.0.5:5432" = true
  ∧ reply "ECONNREFUSED 10.0.0.5:5432" ≠ reply "ENOSPC /var/lib/core".
Proof.
  intros req failing reply. split; [|split].
  - vm_compute; reflexivity.
  - vm_compute; reflexivity.
  - vm_compute. intros H. discriminate H.
Qed.

(** C5: the lookup [requestSchemas[version][method]] also finds what the
    table inherits. For the endpoint "p2p.constructor.keys" no schema and
    no handler are registered, yet the validator is the first call made,
    with the inherited [Object.keys] in the place of the schema; a payload
    it rejects is answered with the validation error, and for a payload it
    lets pass [Object.keys] is called as the handler and its result is
    replied as a success. *)
Theorem workerMessage_validates_inherited :
  let req := mkPeerRequest "p2p.constructor.keys" (JObj []) in
  let rejected := mkPeerRequest "p2p.constructor.keys" JNull in
  let objectKeys := FromPrototype "constructor" "keys" in
  schemaFor exampleSchemas (versionOf req) (methodOf req) = None
  ∧ handlerFor exampleHandlers (versionOf req) (methodOf req) = None
  ∧ exampleWorkerMessage 0%nat req =
      ([EvValidateInherited objectKeys (JObj []);
        EvCallInherited objectKeys req;
        EvGetHeaders],
       inr (ResOk (JArr [JStr "app"; JStr "service"; JStr "req"]) (JObj [])))
  ∧ exampleWorkerMessage 0%nat rejected =
      ([EvValidateInherited objectKeys JNull],
       inr (ResError (ServerError "Data validation error"))).
Proof. intros req rejected objectKeys. repeat split; vm_compute; reflexivity. Qed.

(** A request that passes validation, sent under two namespaces, gets the
    same reply. *)
Lemma workerMessage_namespace_witness :
  let req1 := mkPeerRequest "p2p.peer.getPeers" (JObj []) in
  let req2 := mkPeerRequest "internal.peer.getPeers" (JObj []) in
  outcome (exampleWorkerMessage 0%nat req1) = inr (ResOk (JArr []) (JObj []))
  ∧ outcome (exampleWorkerMessage 0%nat req2) = inr (ResOk (JArr []) (JObj [])).
Proof.
  intros req1 req2.
  assert (versionOf req1 = versionOf req2) as Hv by (vm_compute; reflexivity).
  assert (methodOf req1 = methodOf req2) as Hm by (vm_compute; reflexivity).
  assert (data req1 = data req2) as Hd by reflexivity.
  assert (versionOf req1 = "peer") as Hv1 by (vm_compute; reflexivity).
  assert (methodOf req1 = "getPeers") as Hm1 by (vm_compute; reflexivity).
  pose proof (workerMessage_namespace exampleSchemas exampleHandlers exampleRuntime
                exampleValidate (JObj []) exampleTypeErrorMessage 0%nat req1 req2
                Hv Hm Hd) as H.
  assert (outcome (dispatch exampleSchemas exampleHandlers exampleRuntime exampleValidate
                     (JObj []) exampleTypeErrorMessage (versionOf req1) (methodOf req1) req1)
          = inr (ResOk (JArr []) (JObj []))) as Hout by (vm_compute; reflexivity).
  rewrite Hout in H. apply H.
  - intros byMethod handler Hb Hl.
    rewrite Hv1 in Hb. rewrite Hm1 in Hl.
    unfold exampleHandlers in Hb. rewrite lookup_singleton_eq in Hb.
    injection Hb as <-.
    rewrite lookup_insert_ne in Hl by discriminate.
    rewrite lookup_singleton_eq in Hl. injection Hl as <-. reflexivity.
  - intros l f Hl Hf. rewrite Hv1, Hm1 in Hl.
    destruct Hl as [-> | ->]; vm_compute in Hf; discriminate Hf.
Defined.

(** C9 as stated fails: the same version, method and payload under two
    namespaces, and two different replies. *)
Lemma workerMessage_namespace_visible :
  let req1 := mkPeerRequest "p2p.peer.getStatus" JNull in
  let req2 := mkPeerRequest "internal.peer.getStatus" JNull in
  versionOf req1 = versionOf req2
  ∧ methodOf req1 = methodOf req2
  ∧ data req1 = data req2
  ∧ outcome (exampleWorkerMessage 0%nat req1) =
      inr (ResError (Error "p2p.peer.getStatus responded with ECONNREFUSED 10.0.0.5:5432"))
  ∧ outcome (exampleWorkerMessage 0%nat req2) =
      inr (ResError (Error "internal.peer.getStatus responded with ECONNREFUSED 10.0.0.5:5432"))
  ∧ outcome (exampleWorkerMessage 0%nat req1) ≠ outcome (exampleWorkerMessage 0%nat req2).
Proof.
  intros req1 req2. repeat (split; [vm_compute; reflexivity|]).
  vm_compute. intros H. discriminate H.
Qed.

(** A payload that fails its schema: the validator is the only call made,
    and its error is the reply. *)
Example workerMessage_invalid_payload :
  exampleWorkerMessage 0%nat (mkPeerRequest "p2p.peer.getPeers" JNull) =
    ([EvValidate [("type", JStr "object")] JNull],
     inr (ResError (ServerError "Data validation error"))).
Proof. vm_compute; reflexivity. Qed.

(** An endpoint without version and method reads the key "undefined" and
    fails before any handler runs. *)
Example workerMessage_short_endpoint :
  exampleWorkerMessage 0%nat (mkPeerRequest "p2p" JNull) =
    ([EvLogError "Cannot read property 'undefined' of undefined"],
     inr (ResError (Error "p2p responded with Cannot read property 'undefined' of undefined"))).
Proof. vm_compute; reflexivity. Qed.

(** A request without an endpoint: [split] is read of [undefined] before
    the [try] block is entered, and the listener throws. *)
Example onWorkerMessage_no_endpoint :
  onWorkerMessage exampleSchemas exampleHandlers exampleRuntime exampleValidate
    (JObj []) exampleTypeErrorMessage 0%nat JUndefined JNull =
    ([], inl (ThrownError (Error "Cannot read property 'split' of undefined"))).
Proof. vm_compute; reflexivity. Qed.

(** A method that is neither registered nor inherited. *)
Example workerMessage_unknown_method :
  exampleWorkerMessage 0%nat (mkPeerRequest "p2p.peer.getBlocks" JNull) =
    ([EvLogError "handlers[version][method] is not a function"],
     inr (ResError (Error "p2p.peer.getBlocks responded with handlers[version][method] is not a function"))).
Proof. vm_compute; reflexivity. Qed.

(** A handler that returns a falsy value is replied to with an empty
    object. *)
Example js_or_empty_object : js_or JUndefined (JObj []) = JObj [].
Proof. reflexivity. Qed.

(** *** Server options *)

Lemma defaultOptions_pingTimeout env (getBlocksTimeout verifyTimeout : Z) :
  defaultOptions env getBlocksTimeout verifyTimeout !! "pingTimeout" =
    Some (JNum (Z.max getBlocksTimeout verifyTimeout)).
Proof.
  unfold defaultOptions. simpl.
  repeat (rewrite lookup_insert_ne by discriminate).
  apply lookup_insert_eq.
Qed.

Lemma defaultOptions_maxPayload env (getBlocksTimeout verifyTimeout : Z) :
  defaultOptions env getBlocksTimeout verifyTimeout !! "maxPayload" =
    Some (JNum 2097152).
Proof.
  unfold defaultOptions. simpl.
  repeat (rewrite lookup_insert_ne by discriminate).
  apply lookup_insert_eq.
Qed.

(** A key of the spread is taken from [config.server] when it is there
    and from the defaults otherwise. *)
Lemma serverOptions_lookup env (getBlocksTimeout verifyTimeout : Z) config (k : string) :
  serverOptions env getBlocksTimeout verifyTimeout config !! k =
    match server config ≫= (λ m, m !! k) with
    | Some v => Some v
    | None => defaultOptions env getBlocksTimeout verifyTimeout !! k
    end.
Proof.
  unfold serverOptions. rewrite lookup_union.
  destruct (server config) as [m|]; simpl.
  - destruct (m !! k); simpl; [|by rewrite (left_id_L None _)].
    by destruct (defaultOptions _ _ _ !! k).
  - rewrite lookup_empty. by rewrite (left_id_L None _).
Qed.

(** C6 (as amended): the ping timeout the server is created with is the
    [pingTimeout] of [config.server] when the caller supplies one, and
    otherwise the larger of [getBlocksTimeout] and [verifyTimeout]. *)
Theorem startSocketServer_pingTimeout env (getBlocksTimeout verifyTimeout : Z) config (t0 : Z) :
  pingTimeout (options (startSocketServer env getBlocksTimeout verifyTimeout config t0)) =
    match server config ≫= (λ m, m !! "pingTimeout") with
    | Some v => Some v
    | None => Some (JNum (Z.max getBlocksTimeout verifyTimeout))
    end.
Proof.
  unfold pingTimeout, startSocketServer. simpl.
  rewrite serverOptions_lookup. by rewrite defaultOptions_pingTimeout.
Qed.

(** Without a [pingTimeout] of the caller's the timeout is the maximum. *)
Lemma default_pingTimeout_is_max env (getBlocksTimeout verifyTimeout : Z) (t0 : Z) :
  pingTimeout (options (startSocketServer env getBlocksTimeout verifyTimeout
                          (mkConfig None) t0)) =
    Some (JNum (Z.max getBlocksTimeout verifyTimeout)).
Proof.
  unfold pingTimeout, startSocketServer. simpl.
  rewrite serverOptions_lookup. simpl. apply defaultOptions_pingTimeout.
Qed.

(** Scenario D: nothing overridden, 2000 and 5000 give 5000. *)
Example scenario_D_pingTimeout env (t0 : Z) :
  pingTimeout (options (startSocketServer env 2000 5000 (mkConfig None) t0)) =
    Some (JNum 5000).
Proof. by rewrite default_pingTimeout_is_max. Qed.

(** C6 as stated fails: with 2000 and 5000 configured, a caller's
    [config.server] sets another timeout. *)
Lemma pingTimeout_overridden :
  pingTimeout (options (startSocketServer (mkEnv None None "/core-p2p") 2000 5000
                          (mkConfig (Some {[ "pingTimeout" := JNum 1000 ]})) 0)) =
    Some (JNum 1000)
  ∧ JNum 1000 ≠ JNum (Z.max 2000 5000).
Proof.
  split; [|discriminate].
  unfold pingTimeout, startSocketServer. simpl.
  rewrite serverOptions_lookup. simpl. by rewrite lookup_singleton_eq.
Qed.

(** C7 (as amended): the maximum payload the server is created with is the
    [maxPayload] of [config.server] when the caller supplies one, and
    otherwise 2 * 1024 * 1024 = 2097152 bytes. *)
Theorem startSocketServer_maxPayload env (getBlocksTimeout verifyTimeout : Z) config (t0 : Z) :
  maxPayload (options (startSocketServer env getBlocksTimeout verifyTimeout config t0)) =
    match server config ≫= (λ m, m !! "maxPayload") with
    | Some v => Some v
    | None => Some (JNum (2 * 1024 * 1024))
    end.
Proof.
  unfold maxPayload, startSocketServer. simpl.
  rewrite serverOptions_lookup. by rewrite defaultOptions_maxPayload.
Qed.

(** C7 as stated fails: a caller's [config.server] raises the ceiling. *)
Lemma maxPayload_overridden :
  maxPayload (options (startSocketServer (mkEnv None None "/core-p2p") 2000 5000
                         (mkConfig (Some {[ "maxPayload" := JNum 8388608 ]})) 0)) =
    Some (JNum 8388608)
  ∧ JNum 8388608 ≠ JNum (2 * 1024 * 1024).
Proof.
  split; [|discriminate].
  unfold maxPayload, startSocketServer. simpl.
  rewrite serverOptions_lookup. simpl. by rewrite lookup_singleton_eq.
Qed.

(** *** Startup *)

Lemma elapsed_nonneg (waits : list Z) : (0 <= elapsed waits)%Z.
Proof. induction waits; simpl; lia. Qed.

(** Once the timer is gone, waiting changes the clock only. *)
Lemma run_idle (waits : list Z) (s : Startup) :
  timer s = None →
  run s (Elapse <$> waits) =
    mkStartup (now s + elapsed waits)%Z (options s) None (returned s)
              (injected s) (uncaught s).
Proof.
  revert s. induction waits as [|ms waits IH]; intros s Ht.
  - simpl. rewrite Z.add_0_r. destruct s; simpl in *; by subst.
  - rewrite fmap_cons.
    change (run s (Elapse ms :: (Elapse <$> waits)))
      with (run (step s (Elapse ms)) (Elapse <$> waits)).
    change (elapsed (ms :: waits)) with (Z.max 0 ms + elapsed waits)%Z.
    rewrite IH; unfold step; rewrite Ht; simpl; [|done].
    f_equal. lia.
Qed.

(** While only time passes, the promise stays pending and nothing is
    injected; the timer is armed until its due time and its error is the
    one uncaught exception afterwards. *)
Lemma run_waits (waits : list Z) (s : Startup) (due : Z) :
  timer s = Some due → (now s < due)%Z → uncaught s = [] →
  run s (Elapse <$> waits) =
    if (due <=? now s + elapsed waits)%Z
    then mkStartup (now s + elapsed waits)%Z (options s) None (returned s)
                   (injected s) [setupTimeoutError]
    else mkStartup (now s + elapsed waits)%Z (options s) (Some due) (returned s)
                   (injected s) [].
Proof.
  revert s. induction waits as [|ms waits IH]; intros s Ht Hn Hu.
  - simpl. rewrite Z.add_0_r. destruct (Z.leb_spec due (now s)); [lia|].
    destruct s; simpl in *; by subst.
  - pose proof (elapsed_nonneg waits) as Hpos.
    rewrite fmap_cons.
    change (run s (Elapse ms :: (Elapse <$> waits)))
      with (run (step s (Elapse ms)) (Elapse <$> waits)).
    change (elapsed (ms :: waits)) with (Z.max 0 ms + elapsed waits)%Z.
    destruct (Z.leb_spec due (now s + Z.max 0 ms)) as [Hfire|Hwait].
    + assert (step s (Elapse ms) =
                mkStartup (now s + Z.max 0 ms)%Z (options s) None (returned s)
                          (injected s) [setupTimeoutError]) as ->.
      { unfold step. rewrite Ht. simpl.
        destruct (Z.leb_spec due (now s + Z.max 0 ms)); [|lia].
        unfold fireTimer. simpl. by rewrite Hu. }
      rewrite run_idle by done. simpl.
      destruct (Z.leb_spec due (now s + (Z.max 0 ms + elapsed waits))); [|lia].
      f_equal. lia.
    + assert (step s (Elapse ms) =
                mkStartup (now s + Z.max 0 ms)%Z (options s) (Some due) (returned s)
                          (injected s) (uncaught s)) as ->.
      { unfold step. rewrite Ht. simpl.
        by destruct (Z.leb_spec due (now s + Z.max 0 ms)); [lia|]. }
      rewrite IH by done. simpl.
      rewrite !Z.add_assoc. done.
Qed.

(** C3, what the code does: when the transport never emits ["ready"], the
    promise of [startSocketServer] is pending after any amount of time,
    never rejected; from 10000 ms on the timer's error is an uncaught
    exception of the process. *)
Theorem startSocketServer_never_ready env (getBlocksTimeout verifyTimeout : Z)
    config (t0 : Z) (waits : list Z) :
  let s := run (startSocketServer env getBlocksTimeout verifyTimeout config t0)
               (Elapse <$> waits) in
  returned s = Pending
  ∧ injected s = false
  ∧ uncaught s =
      if (setupTimeout <=? elapsed waits)%Z then [setupTimeoutError] else [].
Proof.
  rewrite (run_waits waits
    (startSocketServer env getBlocksTimeout verifyTimeout config t0)
    (t0 + setupTimeout)%Z eq_refl); [|simpl; unfold setupTimeout; lia|done].
  simpl.
  destruct (Z.leb_spec (t0 + setupTimeout) (t0 + elapsed waits));
    destruct (Z.leb_spec setupTimeout (elapsed waits)); try lia; done.
Qed.

(** At the bound itself: the timer has fired, its error is uncaught, and
    the promise is still pending; a millisecond earlier nothing has
    happened. *)
Example startSocketServer_at_the_bound :
  let start := startSocketServer (mkEnv None None "/core-p2p") 2000 5000
                 (mkConfig None) 0 in
  returned (run start [Elapse 10000]) = Pending
  ∧ uncaught (run start [Elapse 10000]) = [setupTimeoutError]
  ∧ timer (run start [Elapse 10000]) = None
  ∧ uncaught (run start [Elapse 9999]) = []
  ∧ timer (run start [Elapse 9999]) = Some 10000%Z.
Proof. repeat split. Qed.

(** With a transport that becomes ready in time the promise is fulfilled,
    the timer cleared and nothing is thrown later. *)
Example startSocketServer_ready_in_time :
  let s := run (startSocketServer (mkEnv None None "/core-p2p") 2000 5000
                  (mkConfig None) 0)
               [Elapse 2500; Ready; Elapse 60000] in
  (∃ server, returned s = Fulfilled server)
  ∧ injected s = true ∧ timer s = None ∧ uncaught s = [].
Proof. simpl. repeat split. by eexists. Qed.

End SocketServerProofs.

(** ** The transaction store *)

Module PoolProofs.
Import Pool.

#[local] Open Scope nat_scope.
#[local] Set Warnings "-clear-no-such-hyp".

(** *** The minimum entry *)

Lemma lower_priority acc e x :
  lower acc e = Some x →
  priority (fields x.2) ≤ priority (fields e.2)
  ∧ (∀ a, acc = Some a → priority (fields x.2) ≤ priority (fields a.2))
  ∧ (x = e ∨ acc = Some x).
Proof.
  unfold lower, ranksBelow. destruct acc as [m|]; intros Hx.
  - destruct (priority (fields e.2) <? priority (fields m.2)) eqn:Hlt; simpl in Hx.
    + apply Nat.ltb_lt in Hlt. simplify_eq.
      repeat split; [lia| |by left]. intros a [= <-]. lia.
    + apply Nat.ltb_ge in Hlt.
      destruct (priority (fields e.2) =? priority (fields m.2)) eqn:Heq; simpl in Hx.
      * apply Nat.eqb_eq in Heq.
        destruct (arrival m.2 <? arrival e.2); simplify_eq;
          (repeat split; [lia| |by auto]); intros a [= <-]; lia.
      * simplify_eq. repeat split; [lia| |by right]. by intros a [= <-].
  - simplify_eq. repeat split; [lia| |by left]. by intros a [=].
Qed.

Lemma lower_is_Some acc e : is_Some (lower acc e).
Proof. unfold lower. destruct acc; [destruct (ranksBelow _ _)|]; by eexists. Qed.

Lemma foldl_lower_Some l acc x :
  foldl lower acc l = Some x →
  (acc = Some x ∨ x ∈ l)
  ∧ (∀ a, acc = Some a → priority (fields x.2) ≤ priority (fields a.2))
  ∧ (∀ y, y ∈ l → priority (fields x.2) ≤ priority (fields y.2)).
Proof.
  revert acc. induction l as [|e l IH]; intros acc Hx; simpl in Hx.
  - repeat split; [by left| |]; [intros a Ha; by simplify_eq|]. by intros y Hy%elem_of_nil.
  - destruct (IH _ Hx) as (Hin & Hacc & Hall).
    destruct (lower_is_Some acc e) as [m Hm].
    destruct (lower_priority _ _ _ Hm) as (Hme & Hma & Hmwhere).
    specialize (Hacc m Hm).
    repeat split.
    + destruct Hin as [Hin|Hin]; [|right; by apply elem_of_cons; right].
      rewrite Hm in Hin. simplify_eq.
      destruct Hmwhere as [->|Hmacc]; [right; apply elem_of_cons; by left|by left].
    + intros a Ha. specialize (Hma a Ha). lia.
    + intros y [->|Hy]%elem_of_cons; [lia|by apply Hall].
Qed.

Lemma foldl_lower_from_Some l m : is_Some (foldl lower (Some m) l).
Proof.
  revert m. induction l as [|e l IH]; intros m; simpl; [by eexists|].
  destruct (ranksBelow _ _); apply IH.
Qed.

Lemma foldl_lower_None l acc :
  foldl lower acc l = None → acc = None ∧ l = [].
Proof.
  destruct l as [|e l]; simpl; [done|]. intros H. exfalso.
  destruct acc as [m|]; simpl in H.
  - destruct (ranksBelow _ _);
      [destruct (foldl_lower_from_Some l e)|destruct (foldl_lower_from_Some l m)];
      congruence.
  - destruct (foldl_lower_from_Some l e). congruence.
Qed.

(** The minimum entry is an entry of the pool. *)
Lemma minEntry_lookup (p : gmap Id PendingTransaction) k m :
  minEntry p = Some (k, m) → p !! k = Some m.
Proof.
  intros H. destruct (foldl_lower_Some _ _ _ H) as ([?|Hin] & _ & _); [done|].
  by apply elem_of_map_to_list in Hin.
Qed.

(** No entry of the pool has a lower priority. *)
Lemma minEntry_least (p : gmap Id PendingTransaction) k m k' e :
  minEntry p = Some (k, m) → p !! k' = Some e →
  priority (fields m) ≤ priority (fields e).
Proof.
  intros H He. destruct (foldl_lower_Some _ _ _ H) as (_ & _ & Hall).
  apply (Hall (k', e)). by apply elem_of_map_to_list.
Qed.

(** Only the empty pool has no minimum entry. *)
Lemma minEntry_None (p : gmap Id PendingTransaction) :
  minEntry p = None → p = ∅.
Proof.
  intros H. destruct (foldl_lower_None _ _ H) as [_ Hl].
  by apply map_to_list_empty_iff.
Qed.

(** *** Capacity *)

Lemma size_insert_le (p : gmap Id PendingTransaction) i x :
  size (<[i := x]> p) ≤ S (size p).
Proof. rewrite map_size_insert. destruct (p !! i); simpl; lia. Qed.

Lemma size_delete_le (p : gmap Id PendingTransaction) i :
  size (delete i p) ≤ size p.
Proof. rewrite map_size_delete. destruct (p !! i); simpl; lia. Qed.

Lemma add_size C i f r s :
  size (pool s) ≤ C → size (pool (add C i f r s).2) ≤ C.
Proof.
  intros Hle. unfold add.
  destruct (size (pool s) <? C) eqn:Hlt; simpl.
  - apply Nat.ltb_lt in Hlt. pose proof (size_insert_le (pool s) i
      (mkPending i f r (arrivals s))). lia.
  - destruct (minEntry (pool s)) as [[k m]|] eqn:Hmin; simpl; [|done].
    destruct (priority (fields m) <? priority f); simpl; [|done].
    apply minEntry_lookup in Hmin.
    pose proof (size_insert_le (delete k (pool s)) i (mkPending i f r (arrivals s))).
    pose proof (map_size_delete_Some k (pool s) (ltac:(by eexists))) as Hd.
    pose proof (map_size_ne_0_lookup_2 (pool s) k (ltac:(by eexists))). lia.
Qed.

Lemma remove_size C i s :
  size (pool s) ≤ C → size (pool (remove i s).2) ≤ C.
Proof. intros Hle. simpl. pose proof (size_delete_le (pool s) i). lia. Qed.

Lemma apply_size C s op :
  size (pool s) ≤ C → size (pool (apply C s op)) ≤ C.
Proof. destruct op; simpl; [apply add_size|apply remove_size]. Qed.

(** Every store produced from the empty one stays within capacity. *)
Lemma reachable_size C s : reachable C s → size (pool s) ≤ C.
Proof.
  induction 1 as [|s op _ IH]; [|by apply apply_size].
  simpl. rewrite map_size_empty. lia.
Qed.

(** C2: in every store reached from the empty one by additions and
    removals the pool is within capacity; [add] below capacity admits;
    [add] at capacity evicts the entry of least priority and admits when
    the new priority is strictly higher, and rejects for capacity
    otherwise; and the pool is within capacity after the [add]. *)
Theorem add_enforces_capacity C s i f r :
  reachable C s →
  size (pool s) ≤ C
  ∧ (size (pool s) < C →
       add C i f r s =
         (Added,
          mkStore (<[i := mkPending i f r (arrivals s)]> (pool s)) (S (arrivals s))))
  ∧ (size (pool s) = C →
       match minEntry (pool s) with
       | Some (k, m) =>
           pool s !! k = Some m
           ∧ (∀ k' e, pool s !! k' = Some e →
                priority (fields m) ≤ priority (fields e))
           ∧ add C i f r s =
               if priority (fields m) <? priority f
               then (AddedWithEviction k,
                     mkStore (<[i := mkPending i f r (arrivals s)]> (delete k (pool s)))
                             (S (arrivals s)))
               else (Rejected Capacity, s)
       | None => C = 0 ∧ add C i f r s = (Rejected Capacity, s)
       end)
  ∧ size (pool (add C i f r s).2) ≤ C.
Proof.
  intros Hreach. pose proof (reachable_size _ _ Hreach) as Hle.
  split; [done|]. split; [|split; [|by apply add_size]].
  - intros Hlt. unfold add. apply Nat.ltb_lt in Hlt. by rewrite Hlt.
  - intros Heq. unfold add.
    assert ((size (pool s) <? C) = false) as -> by (apply Nat.ltb_ge; lia).
    destruct (minEntry (pool s)) as [[k m]|] eqn:Hmin.
    + split; [by apply minEntry_lookup|]. split; [|by destruct (_ <? _)].
      intros k' e He. by eapply minEntry_least.
    + split; [|done]. apply minEntry_None in Hmin. rewrite Hmin in Heq.
      by rewrite map_size_empty in Heq.
Qed.

(** A pool of capacity 1 holding "A" (priority 10): "H" (priority 50)
    evicts it, and the pool still holds one entry. *)
Lemma add_enforces_capacity_witness :
  let s := apply 1 empty (OpAdd "A" (mkFields "alice" 1 10 10 1 0) "A") in
  reachable 1 s
  ∧ size (pool s) = 1
  ∧ (add 1 "H" (mkFields "bob" 2 50 50 1 0) "H" s).1 = AddedWithEviction "A"
  ∧ size (pool (add 1 "H" (mkFields "bob" 2 50 50 1 0) "H" s).2) ≤ 1.
Proof.
  intros s.
  assert (reachable 1 s) as Hreach by (apply reachable_apply, reachable_empty).
  destruct (add_enforces_capacity 1 s "H" (mkFields "bob" 2 50 50 1 0) "H" Hreach)
    as (_ & _ & _ & Hafter).
  split; [exact Hreach|]. split; [vm_compute; reflexivity|].
  split; [vm_compute; reflexivity|exact Hafter].
Defined.

(** Scenario C: with the pool full of priority 10, a candidate of priority
    5 is turned away and the pool is as before; one of priority 50 then
    takes the place of the minimum entry. *)
Example scenario_C :
  let s := apply 1 empty (OpAdd "A" (mkFields "alice" 1 10 10 1 0) "A") in
  add 1 "B" (mkFields "bob" 1 5 5 1 0) "B" s = (Rejected Capacity, s)
  ∧ (add 1 "H" (mkFields "bob" 2 50 50 1 0) "H" s).1 = AddedWithEviction "A"
  ∧ has "A" (add 1 "H" (mkFields "bob" 2 50 50 1 0) "H" s).2 = false
  ∧ has "H" (add 1 "H" (mkFields "bob" 2 50 50 1 0) "H" s).2 = true.
Proof. repeat split; vm_compute; reflexivity. Qed.

(** *** The admission processor *)

Lemma Permutation_snoc_front {A} (i : A) (a e v : list A) :
  (a ++ [i]) ++ e ++ v ≡ₚ i :: a ++ e ++ v.
Proof. rewrite <- (assoc_L (++)). simpl. by rewrite <- Permutation_middle. Qed.

Lemma Permutation_snoc_middle {A} (i : A) (a e v : list A) :
  a ++ (e ++ [i]) ++ v ≡ₚ i :: a ++ e ++ v.
Proof.
  rewrite <- (assoc_L (++) e). simpl. by rewrite <- !Permutation_middle.
Qed.

Lemma Permutation_snoc_back {A} (i : A) (a e v : list A) :
  a ++ e ++ v ++ [i] ≡ₚ i :: a ++ e ++ v.
Proof. rewrite !(assoc_L (++)). by rewrite <- Permutation_cons_append. Qed.

Section Processor.
Variables (C maxBatch : nat).
Variable idOf : string → Id.
Variable deserialize : string → option Fields.
Variable settled : Id → bool.
Variable registry : nat * nat → option Capability.

Abbreviation processOne := (processOne C idOf deserialize settled registry).
Abbreviation process := (process C maxBatch idOf deserialize settled registry).

Lemma consistent_reject i e res : consistent res → consistent (reject i e res).
Proof.
  intros [Hb He]. split; simpl; [done|].
  rewrite dom_insert_L, list_to_set_app_L. simpl. set_solver.
Qed.

(** One candidate puts its id into exactly one of the three lists. *)
Lemma processOne_step (st : Node * ProcessorResult) rawTx :
  accept (processOne st rawTx).2 ++ excess (processOne st rawTx).2
    ++ invalid (processOne st rawTx).2 ≡ₚ
    idOf rawTx :: accept st.2 ++ excess st.2 ++ invalid st.2
  ∧ (consistent st.2 → consistent (processOne st rawTx).2).
Proof.
  destruct st as [node res]. unfold Pool.processOne.
  destruct (deserialize rawTx) as [f|]; simpl;
    [|split; [apply Permutation_snoc_back|apply consistent_reject]].
  destruct (has _ _ || settled _); simpl;
    [split; [apply Permutation_snoc_back|apply consistent_reject]|].
  destruct (registry _) as [capability|]; simpl;
    [|split; [apply Permutation_snoc_back|apply consistent_reject]].
  destruct (validate capability _ _ _); simpl;
    [split; [apply Permutation_snoc_back|apply consistent_reject]|].
  destruct (add C _ _ _ _) as [[| |] s']; simpl.
  - split; [apply Permutation_snoc_front|]. intros [Hb He]. split; simpl; [|done].
    destruct (bool_decide _); set_solver.
  - split; [apply Permutation_snoc_front|]. intros [Hb He]. split; simpl; [|done].
    destruct (bool_decide _); set_solver.
  - split; [apply Permutation_snoc_middle|]. by intros [Hb He].
Qed.

Lemma foldl_processOne candidates (st : Node * ProcessorResult) :
  accept (foldl processOne st candidates).2
    ++ excess (foldl processOne st candidates).2
    ++ invalid (foldl processOne st candidates).2 ≡ₚ
    (accept st.2 ++ excess st.2 ++ invalid st.2) ++ inputIds idOf candidates
  ∧ (consistent st.2 → consistent (foldl processOne st candidates).2).
Proof.
  revert st. induction candidates as [|rawTx candidates IH]; intros st.
  - simpl. by rewrite app_nil_r.
  - cbn [foldl]. destruct (processOne_step st rawTx) as [Hperm Hcons].
    destruct (IH (processOne st rawTx)) as [Hperm' Hcons']. split; [|by auto].
    rewrite Hperm', Hperm. unfold inputIds. rewrite fmap_cons.
    by rewrite <- Permutation_middle.
Qed.

(** Within the batch limit [process] returns, and what it returns holds
    every input id in exactly one place. *)
Lemma process_result candidates node node' res :
  process candidates node = inr (node', res) →
  accept res ++ excess res ++ invalid res ≡ₚ inputIds idOf candidates
  ∧ consistent res.
Proof.
  unfold Pool.process. destruct (maxBatch <? List.length candidates); [done|].
  intros [= Hfold].
  destruct (foldl_processOne candidates (node, noResult)) as [Hperm Hcons].
  rewrite Hfold in Hperm, Hcons. simpl in Hperm, Hcons. split; [done|].
  apply Hcons. split; simpl; [done|]. by rewrite dom_empty_L.
Qed.

Lemma process_returns candidates node :
  List.length candidates ≤ maxBatch →
  ∃ node' res, process candidates node = inr (node', res).
Proof.
  intros Hle. unfold Pool.process.
  assert ((maxBatch <? List.length candidates) = false) as ->
    by (apply Nat.ltb_ge; lia).
  destruct (foldl _ _ _) as [node' res]. by eexists _, _.
Qed.

End Processor.

End PoolProofs.

(** ** The REST controller *)

Module ApiProofs.
Import Api.

#[local] Open Scope nat_scope.

(** *** Pagination *)

(** For an offset and a limit that are not negative, [slice] is "drop
    the offset, then take the limit". *)
Lemma slice_offset_limit {A} (arr : list A) (o l : Z) :
  (0 ≤ o)%Z → (0 ≤ l)%Z →
  slice arr o (o + l) = take (Z.to_nat l) (drop (Z.to_nat o) arr).
Proof.
  intros Ho Hl. unfold slice.
  destruct (Z.ltb_spec o 0); [lia|]. destruct (Z.ltb_spec (o + l) 0); [lia|].
  destruct (Z.le_gt_cases o (Z.of_nat (List.length arr))) as [Hin|Hout].
  - rewrite (Z.min_l o) by lia.
    destruct (Z.le_gt_cases (o + l) (Z.of_nat (List.length arr))) as [Hfit|Hover].
    + rewrite Z.min_l by lia. f_equal. lia.
    + rewrite Z.min_r by lia.
      rewrite !take_ge; [done| |]; rewrite length_drop; lia.
  - rewrite (Z.min_r o) by lia. rewrite Z.min_r by lia.
    rewrite Z.sub_diag. simpl. rewrite take_0.
    rewrite (drop_ge arr (Z.to_nat o)) by lia. by rewrite take_nil.
Qed.

(** A negative offset counts from the end of the snapshot. *)
Example slice_negative_offset :
  slice [10; 20; 30; 40] (-3) (-3 + 2) = [20; 30].
Proof. reflexivity. Qed.

Section Controller.
Variable World : Type.
Variable getFromHighestPriority : World → list ITransaction.
Variable process : list string → World → World * (JsError + Pool.ProcessorResult).
Variable getListPage : Request → ListPage.

Abbreviation store := (store World process).
Abbreviation unconfirmed := (unconfirmed World getFromHighestPriority getListPage).
Abbreviation showUnconfirmed := (showUnconfirmed World getFromHighestPriority).

(** [store] hands back the processor's four lists and its errors. *)
Lemma store_body request w w' (processor : Pool.ProcessorResult) :
  process (payload_transactions request) w = (w', inr processor) →
  store request w =
    (w', inr (body (mkStoreData (Pool.accept processor) (Pool.broadcast processor)
                      (Pool.excess processor) (Pool.invalid processor))
                   (Pool.errors processor))).
Proof. intros H. unfold Api.store. by rewrite H. Qed.

(** C8: for an offset [o] and a limit [l] that are not negative,
    [unconfirmed] passes to [toPagination] the data of the snapshot's
    transactions at positions [o] to [o + l - 1], in the snapshot's order,
    and as count the length of the whole snapshot. *)
Theorem unconfirmed_page request (w : World) :
  (0 ≤ offset (getListPage request))%Z →
  (0 ≤ limit (getListPage request))%Z →
  let o := Z.to_nat (offset (getListPage request)) in
  let l := Z.to_nat (limit (getListPage request)) in
  let all := getFromHighestPriority w in
  ∃ rows,
    unconfirmed request w =
      (w, inr (toPagination (mkResultsPage rows (List.length all) false)
                 (truthy (query_transform request))))
    ∧ rows = data <$> take l (drop o all)
    ∧ List.length rows = min l (List.length all - o)
    ∧ ∀ i, i < l → rows !! i = data <$> all !! (o + i).
Proof.
  intros Ho Hl o l all. eexists. split; [reflexivity|].
  rewrite slice_offset_limit by done. fold o l all.
  split; [done|]. split.
  - by rewrite length_fmap, length_take, length_drop.
  - intros i Hi. rewrite list_lookup_fmap, lookup_take_lt by done.
    by rewrite lookup_drop.
Qed.

(** C10: [showUnconfirmed] leaves the services as they are and never
    throws; it replies not-found exactly when no transaction of the
    snapshot has the requested id, and otherwise with the data of the first
    one that has. *)
Theorem showUnconfirmed_reply request (w : World) :
  let found := filter (λ t, id t = params_id request) (getFromHighestPriority w) in
  (showUnconfirmed request w).1 = w
  ∧ (∃ reply, (showUnconfirmed request w).2 = inr reply)
  ∧ ((showUnconfirmed request w).2 = inr (notFound "Transaction not found")
     ↔ found = [])
  ∧ match found with
    | [] => True
    | transaction :: _ =>
        (showUnconfirmed request w).2 =
          inr (respondWithResource (data transaction)
                 (truthy (query_transform request)))
    end.
Proof.
  intros found. unfold Api.showUnconfirmed, whereId. fold found.
  destruct found as [|transaction rest]; simpl.
  - repeat split; try done. by eexists.
  - repeat split; try done. by eexists.
Qed.

End Controller.

(** Offset 1 and limit 2 on a snapshot of four: the second and the third,
    and a count of four. *)
Lemma unconfirmed_page_witness :
  (0 ≤ 1)%Z ∧ (0 ≤ 2)%Z
  ∧ Api.unconfirmed (list ITransaction) (λ w, w) (λ _, mkListPage 1 2)
      (mkRequest "" JUndefined []) examplePool =
      (examplePool,
       inr (toPagination
              (mkResultsPage [JObj [("fee", JNum 40)]; JObj [("fee", JNum 30)]] 4 false)
              false)).
Proof.
  split; [lia|]. split; [lia|].
  destruct (unconfirmed_page (list ITransaction) (λ w, w) (λ _, mkListPage 1 2)
              (mkRequest "" JUndefined []) examplePool)
    as (rows & Heq & Hrows & _); [simpl; lia|simpl; lia|].
  rewrite Heq, Hrows. reflexivity.
Defined.

(** *** Submission *)

Section Store.
Variables (C maxBatch : nat).
Variable idOf : string → Pool.Id.
Variable deserialize : string → option Pool.Fields.
Variable settled : Pool.Id → bool.
Variable registry : nat * nat → option Pool.Capability.

(** C1 (as amended): a batch within the size limit is processed, and in
    the result the accept, excess and invalid lists together hold every
    input id as often as the batch does; hence their union is the set of
    input ids, and they are pairwise disjoint when no id is repeated in the
    batch. Broadcast ids are accepted ids, error keys are invalid ids, and
    [store] replies with these four lists and the errors. *)
Theorem store_partitions request (node : Pool.Node) :
  List.length (payload_transactions request) ≤ maxBatch →
  let ids := Pool.inputIds idOf (payload_transactions request) in
  ∃ node' res,
    Pool.process C maxBatch idOf deserialize settled registry
      (payload_transactions request) node = inr (node', res)
    ∧ Pool.accept res ++ Pool.excess res ++ Pool.invalid res ≡ₚ ids
    ∧ list_to_set (Pool.accept res) ∪ list_to_set (Pool.excess res)
        ∪ list_to_set (Pool.invalid res) =@{gset string} list_to_set ids
    ∧ Pool.broadcast res ⊆ Pool.accept res
    ∧ dom (Pool.errors res) ⊆ list_to_set (Pool.invalid res)
    ∧ (NoDup ids →
         list_to_set (Pool.accept res) ##@{gset string} list_to_set (Pool.excess res)
         ∧ list_to_set (Pool.accept res) ##@{gset string} list_to_set (Pool.invalid res)
         ∧ list_to_set (Pool.excess res) ##@{gset string} list_to_set (Pool.invalid res))
    ∧ Api.store Pool.Node (poolProcessor C maxBatch idOf deserialize settled registry)
        request node =
        (node', inr (body (mkStoreData (Pool.accept res) (Pool.broadcast res)
                             (Pool.excess res) (Pool.invalid res))
                          (Pool.errors res))).
Proof.
  intros Hle ids.
  destruct (PoolProofs.process_returns C maxBatch idOf deserialize settled registry
              _ node Hle) as (node' & res & Hproc).
  exists node', res. split; [done|].
  destruct (PoolProofs.process_result _ _ _ _ _ _ _ _ _ _ Hproc) as [Hperm [Hb He]].
  fold ids in Hperm. split; [done|]. split.
  { rewrite <- Hperm. by rewrite !list_to_set_app_L, (assoc_L (∪)). }
  split; [done|]. split; [done|]. split.
  - intros Hnodup. rewrite <- Hperm in Hnodup.
    apply NoDup_app in Hnodup as (_ & Hae & Hev).
    apply NoDup_app in Hev as (_ & Hei & _).
    repeat split; apply elem_of_disjoint; intros x Hx Hy;
      rewrite elem_of_list_to_set in Hx, Hy.
    + apply (Hae x Hx), elem_of_app. by left.
    + apply (Hae x Hx), elem_of_app. by right.
    + by apply (Hei x Hx).
  - apply store_body. unfold poolProcessor. by rewrite Hproc.
Qed.

End Store.

(** Scenario A: two transactions into an empty pool of capacity 10 are
    both accepted and broadcast. *)
Lemma store_partitions_witness :
  List.length ["A"; "B"] ≤ 40
  ∧ ∃ node',
      Api.store Pool.Node
        (poolProcessor 10 40 (λ r, r) Pool.exampleDeserialize (λ _, false)
           Pool.exampleRegistry)
        (mkRequest "" JUndefined ["A"; "B"]) (Pool.mkNode Pool.empty ∅) =
        (node', inr (body (mkStoreData ["A"; "B"] ["A"; "B"] [] []) ∅)).
Proof.
  assert (List.length ["A"; "B"] ≤ 40) as Hle by (simpl; lia).
  split; [exact Hle|].
  destruct (store_partitions 10 40 (λ r, r) Pool.exampleDeserialize (λ _, false)
              Pool.exampleRegistry (mkRequest "" JUndefined ["A"; "B"])
              (Pool.mkNode Pool.empty ∅) Hle)
    as (node' & res & Hproc & _ & _ & _ & _ & _ & Hstore).
  exists node'. rewrite Hstore.
  assert (Pool.exampleProcess 10 ["A"; "B"] (Pool.mkNode Pool.empty ∅) =
            inr (node', res)) as Hex by exact Hproc.
  vm_compute in Hex. injection Hex as _ <-. reflexivity.
Defined.

(** C1 as stated fails: a batch that repeats an id has that id both
    accepted and invalid (scenario B). *)
Lemma store_duplicate_overlaps :
  ∃ node' res,
    Pool.exampleProcess 10 ["A"; "A"] (Pool.mkNode Pool.empty ∅) = inr (node', res)
    ∧ Pool.accept res = ["A"]
    ∧ Pool.excess res = []
    ∧ Pool.invalid res = ["A"]
    ∧ ¬ (list_to_set (Pool.accept res) ##@{gset string} list_to_set (Pool.invalid res)).
Proof.
  destruct (Pool.exampleProcess 10 ["A"; "A"] (Pool.mkNode Pool.empty ∅))
    as [e|[node' res]] eqn:Hex; vm_compute in Hex; [discriminate Hex|].
  exists node', res. split; [done|].
  injection Hex as _ <-. simpl. repeat split.
  intros Hdisj.
  apply (proj1 (elem_of_disjoint _ _) Hdisj "A");
    apply elem_of_union; left; by apply elem_of_singleton.
Qed.

Example showUnconfirmed_found :
  Api.showUnconfirmed (list ITransaction) (λ w, w)
    (mkRequest "c3" (JBool true) []) examplePool =
    (examplePool, inr (respondWithResource (JObj [("fee", JNum 30)]) true)).
Proof. reflexivity. Qed.

Example showUnconfirmed_missing :
  Api.showUnconfirmed (list ITransaction) (λ w, w)
    (mkRequest "zz" JUndefined []) examplePool =
    (examplePool, inr (notFound "Transaction not found")).
Proof. reflexivity. Qed.

End ApiProofs.

(** ** More on the dispatcher *)

Module DispatchProofs.
Import SocketServer.
Import SocketServerProofs.

Section Dispatch.
Variable requestSchemas : gmap string (gmap string Schema).
Variable handlers : gmap string (gmap string (PeerRequest → Thrown + Json)).
Variable runtime : Runtime.
Variable validate : SchemaArg → Json → option Thrown.
Variable getHeaders : Json.
Variable typeErrorMessage : TypeErrorKind → string.

Abbreviation wm :=
  (workerMessage requestSchemas handlers runtime validate getHeaders typeErrorMessage).
Abbreviation listener :=
  (onWorkerMessage requestSchemas handlers runtime validate getHeaders
     typeErrorMessage).
Abbreviation caught req t thrown :=
  (try_catch ((t, inl thrown) : Exec PeerResponse) (onError typeErrorMessage req)).

(** X1: when the listener replies and when it does not. For an endpoint
    that is a string, a reply is sent whenever neither the validator, nor
    the handler, nor an inherited member throws [null] or [undefined];
    when the [try] block does throw one of the two, the [catch] block
    throws a [TypeError] in its turn, nothing is logged and no reply is
    sent. For an endpoint that is no string the listener throws a
    [TypeError] before anything is called. *)
Theorem onWorkerMessage_replies (workerId : nat) (rawEndpoint rawData : Json) :
  match rawEndpoint with
  | JStr endpoint =>
      let req := mkPeerRequest endpoint rawData in
      ((∀ schema thrown, validate schema rawData = Some thrown → nullish thrown = false) →
       (∀ handler thrown,
          handlerFor handlers (versionOf req) (methodOf req) = Some handler →
          handler req = inl thrown → nullish thrown = false) →
       (∀ l f thrown,
          callMember runtime l = Some f → f req = inl thrown → nullish thrown = false) →
       (∀ version thrown,
          inheritedVersion runtime version = ReadThrows thrown → nullish thrown = false) →
       (∀ l thrown,
          inheritedMember runtime l = ReadThrows thrown → nullish thrown = false) →
       ∃ reply, outcome (listener workerId rawEndpoint rawData) = inr reply)
      ∧ (∀ t thrown,
           dispatch requestSchemas handlers runtime validate getHeaders typeErrorMessage
             (versionOf req) (methodOf req) req = (t, inl thrown) →
           nullish thrown = true →
           ∃ kind,
             listener workerId rawEndpoint rawData =
               (t, inl (typeError typeErrorMessage kind)))
  | _ =>
      ∃ kind,
        listener workerId rawEndpoint rawData = ([], inl (typeError typeErrorMessage kind))
  end.
Proof.
  destruct rawEndpoint as [| | | |endpoint| |]; try (by eexists).
  intros req. split.
  - unfold onWorkerMessage. fold req.
    change rawData with (data req) at 1.
    clearbody req. clear endpoint.
    dispatch_cases; intros Hv Hh Hc Hiv Him;
      repeat match goal with
             | H : validate ?s _ = Some ?t |- _ => apply Hv in H
             | H : inheritedVersion runtime _ = ReadThrows ?t |- _ => apply Hiv in H
             | H : inheritedMember runtime _ = ReadThrows ?t |- _ => apply Him in H
             | H : callMember runtime ?l = Some ?f, H' : ?f req = inl ?t |- _ =>
                 apply (Hc _ _ _ H) in H'
             | H : ?h req = inl ?t |- _ =>
                 apply Hh in H; [|unfold handlerFor; by simplify_option_eq]
             end;
      simpl in *; try discriminate; by eexists.
  - intros t thrown Hd Hn. unfold onWorkerMessage, workerMessage. fold req.
    rewrite Hd. destruct thrown; [discriminate Hn|..];
      exec_simpl; rewrite app_nil_r; by eexists.
Qed.

Lemma truthy_js_or (v : Json) : truthy (js_or v (JObj [])) = true.
Proof. unfold js_or. by destruct (truthy v) eqn:Hv. Qed.

(** X2: where a success comes from: the payload passed validation where a
    schema is registered, and the reply carries what was returned by the
    handler registered for the version and the method or, where none is
    registered, by the member the handler table inherits under those
    names, the one call made; an empty object stands in for a falsy
    result, so that the data of a success is never falsy. *)
Theorem workerMessage_success_origin (workerId : nat) req (body headers : Json) :
  outcome (wm workerId req) = inr (ResOk body headers) →
  truthy body = true
  ∧ headers = getHeaders
  ∧ (∀ schema, schemaFor requestSchemas (versionOf req) (methodOf req) = Some schema →
       validate (Registered schema) (data req) = None)
  ∧ ∃ v, body = js_or v (JObj [])
      ∧ match handlerFor handlers (versionOf req) (methodOf req) with
        | Some handler =>
            handler req = inr v
            ∧ filter isCall (trace (wm workerId req)) =
                [EvHandler (versionOf req) (methodOf req) req]
        | None =>
            ∃ f,
              let l := match handlers !! versionOf req with
                       | Some _ => FromTable (versionOf req) (methodOf req)
                       | None => FromPrototype (versionOf req) (methodOf req)
                       end in
              callMember runtime l = Some f
              ∧ f req = inr v
              ∧ filter isCall (trace (wm workerId req)) = [EvCallInherited l req]
        end.
Proof.
  dispatch_cases; intros Hout; simplify_eq;
    (split; [apply truthy_js_or|]); (split; [done|]);
    (split; [intros; by simplify_eq|]); eexists; (split; [done|]);
    try done; by eexists.
Qed.

(** X3: the calls one request causes. The validator runs at most once, as
    the first call, with the registered schema when there is one and
    otherwise with a truthy inherited member; when it throws, nothing is
    called as the handler. At most one call is made as the handler, with
    the request as received: to the registered handler when there is one,
    otherwise to an inherited member. Headers are built for a success
    only. *)
Theorem workerMessage_calls (workerId : nat) req :
  match schemaFor requestSchemas (versionOf req) (methodOf req) with
  | Some schema =>
      ∃ rest, trace (wm workerId req) = EvValidate schema (data req) :: rest
        ∧ filter isValidation rest = []
  | None =>
      filter isValidation (trace (wm workerId req)) = []
      ∨ ∃ l rest, trace (wm workerId req) = EvValidateInherited l (data req) :: rest
          ∧ filter isValidation rest = []
          ∧ inheritedMember runtime l = ReadValue true
  end
  ∧ (∀ schema thrown,
       validationOf schema (data req) ∈ trace (wm workerId req) →
       validate schema (data req) = Some thrown →
       filter isCall (trace (wm workerId req)) = [])
  ∧ match handlerFor handlers (versionOf req) (methodOf req) with
    | Some handler =>
        filter isCall (trace (wm workerId req)) = []
        ∨ filter isCall (trace (wm workerId req)) =
            [EvHandler (versionOf req) (methodOf req) req]
    | None =>
        filter isCall (trace (wm workerId req)) = []
        ∨ ∃ l, filter isCall (trace (wm workerId req)) = [EvCallInherited l req]
            ∧ is_Some (callMember runtime l)
    end
  ∧ filter isGetHeaders (trace (wm workerId req)) =
      match outcome (wm workerId req) with
      | inr (ResOk _ _) => [EvGetHeaders]
      | _ => []
      end.
Proof.
  dispatch_cases.
  all: split; [by eauto 6|].
  all: split; [intros [?registered|?inherited] ?thrown Hin Hthrown; simpl in Hin;
               repeat match goal with
                      | H : _ ∈ _ :: _ |- _ => apply elem_of_cons in H as [H|H]
                      | H : _ ∈ [] |- _ => by apply elem_of_nil in H
                      end; by simplify_eq|].
  all: split; [by eauto|done].
Qed.

(** X4: what is logged: nothing for a success and nothing for a [ServerError];
    for any other error exactly one line, the very text that the reply
    carries behind the endpoint; and nothing when no reply is sent. *)
Theorem workerMessage_logging (workerId : nat) req :
  match outcome (wm workerId req) with
  | inr (ResOk _ _) => filter isLogError (trace (wm workerId req)) = []
  | inr (ResError e) =>
      if isServerError e then filter isLogError (trace (wm workerId req)) = []
      else ∃ msg,
          filter isLogError (trace (wm workerId req)) = [EvLogError msg]
          ∧ message e = endpoint req +:+ " responded with " +:+ msg
  | inl _ => filter isLogError (trace (wm workerId req)) = []
  end.
Proof.
  dispatch_cases;
    repeat match goal with
           | H : isServerError ?e = _ |- _ => rewrite ?H; clear H
           end;
    try done; by eexists.
Qed.

(** X5: a request for which no handler is registered and nothing callable
    is inherited under its version and method gets no success: nothing is
    called as the handler and no headers are built. *)
Theorem workerMessage_no_handler (workerId : nat) req :
  handlerFor handlers (versionOf req) (methodOf req) = None →
  callMember runtime (FromTable (versionOf req) (methodOf req)) = None →
  callMember runtime (FromPrototype (versionOf req) (methodOf req)) = None →
  filter isCall (trace (wm workerId req)) = []
  ∧ filter isGetHeaders (trace (wm workerId req)) = []
  ∧ ∀ body headers, outcome (wm workerId req) ≠ inr (ResOk body headers).
Proof.
  dispatch_cases; intros Hnone Htable Hproto; simplify_eq;
    (split; [done|]); (split; [done|]); by intros.
Qed.

(** X24: the registered path. With a schema and a handler registered for
    the version and the method, the validator is called first, with that
    schema and the payload; when it throws, the [catch] block takes over
    and the handler is not called; when it returns, the handler is called
    with the request as received, and its result is replied with the
    headers, or what it throws goes to the [catch] block. *)
Theorem workerMessage_registered (workerId : nat) req schema handler :
  schemaFor requestSchemas (versionOf req) (methodOf req) = Some schema →
  handlerFor handlers (versionOf req) (methodOf req) = Some handler →
  wm workerId req =
    match validate (Registered schema) (data req) with
    | Some thrown => caught req [EvValidate schema (data req)] thrown
    | None =>
        match handler req with
        | inr v =>
            ([EvValidate schema (data req);
              EvHandler (versionOf req) (methodOf req) req;
              EvGetHeaders],
             inr (ResOk (js_or v (JObj [])) getHeaders))
        | inl thrown =>
            caught req [EvValidate schema (data req);
                        EvHandler (versionOf req) (methodOf req) req] thrown
        end
    end.
Proof.
  unfold schemaFor, handlerFor, workerMessage, dispatch, validateRequest,
         schemaArgFor, callValidate, validationOf, invokeHandler, callHandler.
  intros Hs Hh.
  destruct (requestSchemas !! versionOf req) as [schemas|]; [|done].
  simpl in Hs. rewrite Hs.
  destruct (handlers !! versionOf req) as [byMethod|]; [|done].
  simpl in Hh. rewrite Hh.
  destruct (validate (Registered schema) (data req)) as [thrown|]; [by exec_simpl|].
  destruct (handler req) as [thrown|v]; by exec_simpl.
Qed.

End Dispatch.

(** A handler that returns [undefined]: the reply's data is an empty
    object. *)
Lemma workerMessage_success_origin_witness :
  let handlers : gmap string (gmap string (PeerRequest → Thrown + Json)) :=
    {[ "peer" := {[ "postBlock" := (λ _, inr JUndefined) ]} ]} in
  outcome (workerMessage ∅ handlers exampleRuntime exampleValidate
             (JObj [("height", JNum 7)])
             exampleTypeErrorMessage 0%nat (mkPeerRequest "p2p.peer.postBlock" JNull)) =
    inr (ResOk (JObj []) (JObj [("height", JNum 7)]))
  ∧ truthy (JObj []) = true.
Proof.
  intros handlers.
  assert (outcome (workerMessage ∅ handlers exampleRuntime exampleValidate
             (JObj [("height", JNum 7)])
             exampleTypeErrorMessage 0%nat (mkPeerRequest "p2p.peer.postBlock" JNull)) =
            inr (ResOk (JObj []) (JObj [("height", JNum 7)]))) as Hout
    by (vm_compute; reflexivity).
  split; [exact Hout|].
  exact (proj1 (workerMessage_success_origin ∅ handlers exampleRuntime exampleValidate
                  (JObj [("height", JNum 7)]) exampleTypeErrorMessage 0%nat
                  (mkPeerRequest "p2p.peer.postBlock" JNull) _ _ Hout)).
Defined.

(** A method nobody registered and no object inherits: nothing is called
    on its behalf. *)
Lemma workerMessage_no_handler_witness :
  handlerFor exampleHandlers "peer" "getBlocks" = None
  ∧ filter isCall
      (trace (exampleWorkerMessage 0%nat (mkPeerRequest "p2p.peer.getBlocks" JNull))) = []
  ∧ filter isGetHeaders
      (trace (exampleWorkerMessage 0%nat (mkPeerRequest "p2p.peer.getBlocks" JNull))) = [].
Proof.
  assert (handlerFor exampleHandlers
            (versionOf (mkPeerRequest "p2p.peer.getBlocks" JNull))
            (methodOf (mkPeerRequest "p2p.peer.getBlocks" JNull)) = None) as Hnone
    by (vm_compute; reflexivity).
  split; [exact Hnone|].
  destruct (workerMessage_no_handler exampleSchemas exampleHandlers exampleRuntime
              exampleValidate (JObj []) exampleTypeErrorMessage 0%nat
              (mkPeerRequest "p2p.peer.getBlocks" JNull) Hnone eq_refl eq_refl)
    as (Hcalls & Hheaders & _).
  split; [exact Hcalls|exact Hheaders].
Defined.

(** The peers request of the examples: validated, handled, replied. *)
Lemma workerMessage_registered_witness :
  exampleWorkerMessage 0%nat (mkPeerRequest "p2p.peer.getPeers" (JObj [])) =
    ([EvValidate [("type", JStr "object")] (JObj []);
      EvHandler "peer" "getPeers" (mkPeerRequest "p2p.peer.getPeers" (JObj []));
      EvGetHeaders],
     inr (ResOk (JArr []) (JObj []))).
Proof.
  exact (workerMessage_registered exampleSchemas exampleHandlers exampleRuntime
           exampleValidate (JObj []) exampleTypeErrorMessage 0%nat
           (mkPeerRequest "p2p.peer.getPeers" (JObj []))
           [("type", JStr "object")] (λ _, inr (JArr [])) eq_refl eq_refl).
Defined.

(** A handler that throws [null]: the request is left without a reply. *)
Lemma onWorkerMessage_replies_witness :
  let handlers : gmap string (gmap string (PeerRequest → Thrown + Json)) :=
    {[ "peer" := {[ "getStatus" := (λ _, inl ThrownNull) ]} ]} in
  let req := mkPeerRequest "p2p.peer.getStatus" JNull in
  ∃ kind,
    onWorkerMessage ∅ handlers exampleRuntime exampleValidate (JObj [])
      exampleTypeErrorMessage 0%nat (JStr "p2p.peer.getStatus") JNull =
      ([EvHandler "peer" "getStatus" req],
       inl (typeError exampleTypeErrorMessage kind)).
Proof.
  intros handlers req.
  exact (proj2 (onWorkerMessage_replies ∅ handlers exampleRuntime exampleValidate
                  (JObj []) exampleTypeErrorMessage 0%nat
                  (JStr "p2p.peer.getStatus") JNull)
           [EvHandler "peer" "getStatus" req] ThrownNull eq_refl eq_refl).
Defined.

(** *** Endpoints *)

Lemma split_lacks (sep : ascii) (s : string) :
  lacks sep s = true → split sep s = [s].
Proof.
  induction s as [|c rest IH]; simpl; [done|].
  intros [Hc Hrest]%andb_prop. apply negb_true_iff in Hc. rewrite Hc.
  by rewrite IH.
Qed.

Lemma split_append (sep : ascii) (a rest : string) :
  lacks sep a = true → split sep (a +:+ String sep rest) = a :: split sep rest.
Proof.
  induction a as [|c a IH]; simpl.
  - intros _. by rewrite Ascii.eqb_refl.
  - intros [Hc Ha]%andb_prop. apply negb_true_iff in Hc. rewrite Hc.
    by rewrite IH.
Qed.

(** X6: an endpoint "namespace.version.method" whose three parts have no dot
    is taken apart as written, and further components after the method
    are ignored; an endpoint with fewer components reads the key
    "undefined" for what is missing. *)
Theorem endpoint_components (ns v m : string) (payload : Json) :
  lacks "." ns = true → lacks "." v = true → lacks "." m = true →
  (versionOf (mkPeerRequest (ns +:+ "." +:+ v +:+ "." +:+ m) payload) = v
   ∧ methodOf (mkPeerRequest (ns +:+ "." +:+ v +:+ "." +:+ m) payload) = m)
  ∧ (∀ extra,
       versionOf (mkPeerRequest (ns +:+ "." +:+ v +:+ "." +:+ m +:+ "." +:+ extra) payload) = v
       ∧ methodOf (mkPeerRequest (ns +:+ "." +:+ v +:+ "." +:+ m +:+ "." +:+ extra) payload) = m)
  ∧ (versionOf (mkPeerRequest (ns +:+ "." +:+ v) payload) = v
     ∧ methodOf (mkPeerRequest (ns +:+ "." +:+ v) payload) = "undefined")
  ∧ (versionOf (mkPeerRequest ns payload) = "undefined"
     ∧ methodOf (mkPeerRequest ns payload) = "undefined").
Proof.
  intros Hns Hv Hm. unfold versionOf, methodOf. simpl.
  repeat split; intros;
    repeat match goal with
           | |- context [String.app "." ?x] =>
               change (String.app "." x) with (String "."%char x)
           end;
    rewrite ?split_append by done; rewrite ?split_append by done;
    rewrite ?split_append by done; rewrite ?split_lacks by done; done.
Qed.

(** The endpoint of a status request, with and without a trailing
    component. *)
Lemma endpoint_components_witness :
  lacks "." "p2p" = true ∧ lacks "." "peer" = true ∧ lacks "." "getStatus" = true
  ∧ versionOf (mkPeerRequest "p2p.peer.getStatus" JNull) = "peer"
  ∧ methodOf (mkPeerRequest "p2p.peer.getStatus" JNull) = "getStatus".
Proof.
  assert (lacks "." "p2p" = true) as Hns by reflexivity.
  assert (lacks "." "peer" = true) as Hv by reflexivity.
  assert (lacks "." "getStatus" = true) as Hm by reflexivity.
  split; [exact Hns|]. split; [exact Hv|]. split; [exact Hm|].
  exact (proj1 (endpoint_components "p2p" "peer" "getStatus" JNull Hns Hv Hm)).
Defined.

End DispatchProofs.

(** ** More on startup *)

Module StartupProofs.
Import SocketServer.
Import SocketServerProofs.

(** *** Options *)

(** X7: the server is created with every default key and with the keys of
    [config.server], and with nothing else; without a [config.server] the
    options are the defaults. *)
Theorem serverOptions_keys env (getBlocksTimeout verifyTimeout : Z) config :
  dom (serverOptions env getBlocksTimeout verifyTimeout config) =
    dom (default ∅ (server config)) ∪ list_to_set defaultKeys
  ∧ serverOptions env getBlocksTimeout verifyTimeout (mkConfig None) =
      defaultOptions env getBlocksTimeout verifyTimeout.
Proof.
  split.
  - unfold serverOptions, defaultOptions.
    by rewrite dom_union_L, dom_list_to_map_L.
  - unfold serverOptions. simpl. by rewrite (left_id_L ∅ (∪)).
Qed.

(** *** The event loop *)

Lemma step_invariant (s : Startup) (ev : LoopEvent) :
  startupInvariant s → startupInvariant (step s ev) ∧ options (step s ev) = options s.
Proof.
  intros (Hinj & Hval & Hrej & Hunc & Harmed).
  destruct ev as [ms|]; simpl.
  - destruct (timer s) as [due|] eqn:Ht; simpl.
    + destruct (Harmed (ltac:(by eexists))) as [Hp Hu]. rewrite Hp in Hinj.
      destruct (Z.leb_spec due (now s + Z.max 0 ms)); simpl; (split; [|done]);
        unfold startupInvariant; simpl; rewrite ?Ht, ?Hu, ?Hp; simpl;
        repeat split; try done; try tauto; try (by auto); try (by intros [? ?]).
    + split; [|done]. unfold startupInvariant; simpl. rewrite ?Ht.
      repeat split; try done; try tauto; try (by intros [? ?]).
  - unfold onReady. destruct (returned s) as [|server|e] eqn:Hr;
      (split; [|done]); unfold startupInvariant; simpl; rewrite ?Hr.
    + repeat split; try done; try tauto; try (by intros ? [= <-]);
        try (by intros [? ?]).
    + repeat split; try done; try tauto.
    + repeat split; try done; try tauto.
Qed.

(** X8: whatever the transport and the clock do, in whatever order, the
    invariant of the startup holds afterwards: in particular the promise
    is never rejected and the timeout error is thrown at most once. *)
Theorem startup_always env (getBlocksTimeout verifyTimeout : Z) config (t0 : Z)
    (evs : list LoopEvent) :
  startupInvariant
    (run (startSocketServer env getBlocksTimeout verifyTimeout config t0) evs)
  ∧ options (run (startSocketServer env getBlocksTimeout verifyTimeout config t0) evs) =
      serverOptions env getBlocksTimeout verifyTimeout config.
Proof.
  induction evs as [|ev evs IH] using rev_ind.
  - simpl. split; [|done]. unfold startupInvariant. simpl.
    repeat split; try done; by auto.
  - unfold run in *. rewrite foldl_snoc. destruct IH as [Hinv Hopt].
    destruct (step_invariant _ ev Hinv) as [Hinv' Hopt'].
    split; [done|]. by rewrite Hopt'.
Qed.

(** After the ["ready"] event has been handled, later events change the
    clock only. *)
Lemma run_after_ready (evs : list LoopEvent) (s : Startup) server :
  timer s = None → returned s = Fulfilled server →
  returned (run s evs) = Fulfilled server
  ∧ timer (run s evs) = None
  ∧ injected (run s evs) = injected s
  ∧ uncaught (run s evs) = uncaught s.
Proof.
  revert s. induction evs as [|ev evs IH]; intros s Ht Hr; [done|].
  change (run s (ev :: evs)) with (run (step s ev) evs).
  assert (timer (step s ev) = None ∧ returned (step s ev) = Fulfilled server
          ∧ injected (step s ev) = injected s ∧ uncaught (step s ev) = uncaught s)
    as (Ht' & Hr' & Hi' & Hu').
  { destruct ev; simpl; [by rewrite Ht|]. unfold onReady. by rewrite Hr. }
  destruct (IH _ Ht' Hr') as (? & ? & ? & ?). repeat split; congruence.
Qed.

(** X9: when the transport is ready before the 10000 ms are over, the promise
    is fulfilled with the server, the timer is cleared, and no timeout
    error is ever thrown, whatever happens later. *)
Theorem ready_in_time env (getBlocksTimeout verifyTimeout : Z) config (t0 : Z)
    (waits : list Z) (later : list LoopEvent) :
  (elapsed waits < setupTimeout)%Z →
  let s := run (startSocketServer env getBlocksTimeout verifyTimeout config t0)
               ((Elapse <$> waits) ++ Ready :: later) in
  returned s = Fulfilled (serverOptions env getBlocksTimeout verifyTimeout config)
  ∧ injected s = true
  ∧ timer s = None
  ∧ uncaught s = [].
Proof.
  intros Hlt s. subst s. unfold run. rewrite foldl_app.
  pose proof (run_waits waits
                (startSocketServer env getBlocksTimeout verifyTimeout config t0)
                (t0 + setupTimeout)%Z eq_refl) as Hwaits.
  unfold run in Hwaits. rewrite Hwaits; [|simpl; unfold setupTimeout; lia|done].
  simpl. destruct (Z.leb_spec (t0 + setupTimeout) (t0 + elapsed waits)); [lia|].
  match goal with
  | |- context [foldl step ?s0 later] =>
      destruct (run_after_ready later s0
                  (serverOptions env getBlocksTimeout verifyTimeout config)
                  eq_refl eq_refl) as (Hr & Ht & Hi & Hu)
  end.
  unfold run in *. by rewrite Hr, Ht, Hi, Hu.
Qed.

(** Ready after two and a half seconds; an hour later nothing has
    changed. *)
Lemma ready_in_time_witness :
  (elapsed [1000; 1500] < setupTimeout)%Z
  ∧ uncaught (run (startSocketServer (mkEnv None None "/core-p2p") 2000 5000
                     (mkConfig None) 0)
                  ((Elapse <$> [1000; 1500]%Z) ++ Ready :: [Elapse 3600000])) = [].
Proof.
  assert (elapsed [1000; 1500] < setupTimeout)%Z as Hlt by (vm_compute; reflexivity).
  split; [exact Hlt|].
  exact (proj2 (proj2 (proj2 (ready_in_time (mkEnv None None "/core-p2p") 2000 5000
                                (mkConfig None) 0 [1000; 1500]%Z [Elapse 3600000] Hlt)))).
Defined.

End StartupProofs.

(** ** The handler listings *)

Module ListingProofs.
Import Api.

#[local] Set Warnings "-clear-no-such-hyp".

(** *** Nested assignment *)

Section Assign.
Context {K V : Type} `{Countable K}.
Variable reserved : K → bool.
Implicit Types (o : gmap Z (gmap K V)) (g : Z) (k : K) (v : V).

Lemma lookup2_assign o g k v g' k' :
  lookup2 (assign reserved g k v o) g' k' =
    if decide (g = g' ∧ k = k' ∧ reserved k = false) then Some v
    else lookup2 o g' k'.
Proof.
  unfold lookup2, assign. destruct (decide (g = g')) as [<-|Hg].
  - rewrite lookup_insert_eq. simpl. destruct (reserved k) eqn:Hr.
    + rewrite decide_False by (intros (_ & _ & ?); done).
      by destruct (o !! g).
    + destruct (decide (k = k')) as [<-|Hk].
      * rewrite lookup_insert_eq. by rewrite decide_True.
      * rewrite lookup_insert_ne by done. rewrite decide_False by tauto.
        by destruct (o !! g).
  - rewrite lookup_insert_ne by done. by rewrite decide_False by tauto.
Qed.

Lemma dom_assign o g k v : dom (assign reserved g k v o) = {[g]} ∪ dom o.
Proof. unfold assign. by rewrite dom_insert_L. Qed.

End Assign.

(** *** A listing loop *)

Section Loop.
Context {K V : Type} `{Countable K}.
Variable reserved : K → bool.
Variable entry : TransactionConstructor → JsError + Z * K * V.
Implicit Types (acc res : gmap Z (gmap K V)) (cs : list TransactionConstructor).

Lemma forOf_collect_app cs1 cs2 acc :
  forOf (collect reserved entry) (cs1 ++ cs2) acc =
    match forOf (collect reserved entry) cs1 acc with
    | inl e => inl e
    | inr acc' => forOf (collect reserved entry) cs2 acc'
    end.
Proof.
  revert acc. induction cs1 as [|c cs1 IH]; intros acc; simpl; [done|].
  destruct (collect reserved entry acc c); [done|]. apply IH.
Qed.

(** The loop succeeds exactly when every constructor passes its checks. *)
Lemma forOf_collect_is_inr cs acc :
  (∃ res, forOf (collect reserved entry) cs acc = inr res)
  ↔ Forall (λ c, ∃ e, entry c = inr e) cs.
Proof.
  revert acc. induction cs as [|c cs IH]; intros acc; simpl.
  - split; [by constructor|by eexists].
  - unfold collect at 1. destruct (entry c) as [e|[[g k] v]] eqn:Hc.
    + split; [by intros [? ?]|]. intros Hall. apply Forall_cons in Hall as [[? ?] _].
      congruence.
    + rewrite IH. split; [|by intros [_ ?]%Forall_cons].
      intros Hall. apply Forall_cons. split; [by eexists|done].
Qed.

(** The loop throws exactly when some constructor fails its checks. *)
Lemma forOf_collect_is_inl cs acc :
  (∃ e, forOf (collect reserved entry) cs acc = inl e)
  ↔ Exists (λ c, ∃ e, entry c = inl e) cs.
Proof.
  revert acc. induction cs as [|c cs IH]; intros acc; simpl.
  - split; [by intros [? ?]|by intros ?%Exists_nil].
  - unfold collect at 1. destruct (entry c) as [e|[[g k] v]] eqn:Hc.
    + split; [|by eexists]. intros _. apply Exists_cons. left. by eexists.
    + rewrite IH. rewrite Exists_cons. split; [by right|].
      intros [[e He]|?]; [congruence|done].
Qed.

(** What a successful loop has put into the object, and nothing else. *)
Lemma forOf_collect_inr cs acc res :
  forOf (collect reserved entry) cs acc = inr res →
  (∀ g k v, lookup2 res g k = Some v →
     lookup2 acc g k = Some v
     ∨ reserved k = false ∧ ∃ c, c ∈ cs ∧ entry c = inr (g, k, v))
  ∧ (∀ g k, is_Some (lookup2 acc g k) → is_Some (lookup2 res g k))
  ∧ (∀ c g k v, c ∈ cs → entry c = inr (g, k, v) → reserved k = false →
       is_Some (lookup2 res g k)).
Proof.
  revert acc. induction cs as [|c cs IH]; intros acc; simpl.
  - intros [= <-]. repeat split; try done; [by auto|].
    by intros c g k v ?%elem_of_nil.
  - unfold collect at 1. destruct (entry c) as [e|[[g0 k0] v0]] eqn:Hc; [done|].
    intros Hres. destruct (IH _ Hres) as (Hsound & Hmono & Hcompl).
    repeat split.
    + intros g k v Hlook.
      destruct (Hsound g k v Hlook) as [Hacc|(Hr & c' & Hin & Hc')].
      * rewrite lookup2_assign in Hacc. case_decide as Hd; [|by left].
        destruct Hd as (<- & <- & Hr). simplify_eq. right. split; [done|].
        exists c. split; [|done]. apply elem_of_cons. by left.
      * right. split; [done|]. exists c'. split; [|done].
        apply elem_of_cons. by right.
    + intros g k Hsome. apply Hmono. rewrite lookup2_assign.
      case_decide; [by eexists|done].
    + intros c' g k v [->|Hin]%elem_of_cons Hc' Hr.
      * apply Hmono. rewrite Hc in Hc'. simplify_eq.
        rewrite lookup2_assign. rewrite decide_True by done. by eexists.
      * by eapply Hcompl.
Qed.

(** An entry that no later constructor assigns again stays as it is. *)
Lemma forOf_collect_keeps cs acc res g k v :
  forOf (collect reserved entry) cs acc = inr res →
  lookup2 acc g k = Some v →
  (∀ c v', c ∈ cs → entry c ≠ inr (g, k, v')) →
  lookup2 res g k = Some v.
Proof.
  revert acc. induction cs as [|c cs IH]; intros acc; simpl.
  - by intros [= <-].
  - unfold collect at 1. destruct (entry c) as [e|[[g0 k0] v0]] eqn:Hc; [done|].
    intros Hres Hacc Hlater. apply (IH _ Hres).
    + rewrite lookup2_assign. case_decide as Hd; [|done].
      destruct Hd as (-> & -> & _). exfalso. apply (Hlater c v0); [|done].
      apply elem_of_cons. by left.
    + intros c' v' Hin. apply Hlater. apply elem_of_cons. by right.
Qed.

(** An entry under a reserved key is never there. *)
Lemma forOf_collect_reserved cs acc res g k :
  forOf (collect reserved entry) cs acc = inr res →
  reserved k = true →
  lookup2 res g k = lookup2 acc g k.
Proof.
  revert acc. induction cs as [|c cs IH]; intros acc; simpl.
  - by intros [= <-].
  - unfold collect at 1. destruct (entry c) as [e|[[g0 k0] v0]] eqn:Hc; [done|].
    intros Hres Hr. rewrite (IH _ Hres Hr), lookup2_assign.
    rewrite decide_False; [done|]. intros (_ & -> & ?). congruence.
Qed.

(** The groups of a successful loop are those of its entries. *)
Lemma forOf_collect_dom cs acc res :
  (∀ c g k v, entry c = inr (g, k, v) → typeGroup c = Some g) →
  forOf (collect reserved entry) cs acc = inr res →
  dom res = dom acc ∪ list_to_set (omap typeGroup cs).
Proof.
  intros Hgroup. revert acc. induction cs as [|c cs IH]; intros acc; simpl.
  - intros [= <-]. by rewrite (right_id_L ∅ (∪)).
  - unfold collect at 1. destruct (entry c) as [e|[[g0 k0] v0]] eqn:Hc; [done|].
    intros Hres. rewrite (IH _ Hres), dom_assign.
    rewrite (Hgroup _ _ _ _ Hc). simpl. set_solver.
Qed.

End Loop.

(** *** The three listings *)

Section Listings.
Variable World : Type.
Variable getActivatedHandlers : World → list TransactionConstructor.
Variable getLastHeight : World → Z.
Variable toUpperCase : string → string.
Variable assertionError : JsError.
Variable typeError : JsError.

Abbreviation capitalize := (capitalize toUpperCase typeError).
Abbreviation typesEntry := (typesEntry toUpperCase assertionError typeError).
Abbreviation schemasEntry := (schemasEntry assertionError).
Abbreviation feesEntry := (feesEntry assertionError).
Abbreviation types :=
  (types World getActivatedHandlers toUpperCase assertionError typeError).
Abbreviation schemas := (schemas World getActivatedHandlers assertionError).
Abbreviation fees := (fees World getActivatedHandlers getLastHeight assertionError).

Lemma typesEntry_inr c g name t :
  typesEntry c = inr (g, name, t) ↔
  type c = Some t ∧ typeGroup c = Some g
  ∧ ∃ k, key c = Some k ∧ capitalize k = inr name.
Proof.
  unfold Api.typesEntry, assertDefined.
  destruct (type c), (typeGroup c), (key c) as [k|]; simpl;
    try (split; [done|]; intros (? & ? & ? & ? & ?); done).
  destruct (Api.capitalize _ _ k) as [e|name'] eqn:Hk.
  - split; [done|]. intros (? & ? & k' & ? & ?). simplify_eq. congruence.
  - split.
    + intros ?. simplify_eq. repeat split; try done. by exists k.
    + intros (? & ? & k' & ? & ?). simplify_eq. congruence.
Qed.

Lemma typesEntry_inl c :
  (∃ e, typesEntry c = inl e)
  ↔ type c = None ∨ typeGroup c = None ∨ key c = None ∨ key c = Some "".
Proof.
  unfold Api.typesEntry, assertDefined, Api.capitalize.
  destruct (type c), (typeGroup c), (key c) as [[|ch rest]|]; simpl;
    (split; [intros [e He]|intros Hor]);
    try (by eexists); try tauto; try done;
    destruct Hor as [?|[?|[?|?]]]; done.
Qed.

Lemma schemasEntry_inr c g t schema :
  schemasEntry c = inr (g, t, schema) ↔
  type c = Some t ∧ typeGroup c = Some g ∧ schema = getSchema c.
Proof.
  unfold Api.schemasEntry, assertDefined.
  destruct (type c), (typeGroup c); simpl;
    try (split; [done|]; intros (? & ? & ?); done).
  split; [intros ?; by simplify_eq|]. intros (? & ? & ?). by simplify_eq.
Qed.

Lemma feesEntry_inr height c g k fee :
  feesEntry height c = inr (g, k, fee) ↔
  typeGroup c = Some g ∧ key c = Some k ∧ fee = staticFee c height.
Proof.
  unfold Api.feesEntry, assertDefined.
  destruct (typeGroup c), (key c); simpl;
    try (split; [done|]; intros (? & ? & ?); done).
  split; [intros ?; by simplify_eq|]. intros (? & ? & ?). by simplify_eq.
Qed.

Lemma isProto_false (k : string) : isProto k = false ↔ k ≠ "__proto__".
Proof. apply String.eqb_neq. Qed.

Lemma typesEntry_group c g name t :
  typesEntry c = inr (g, name, t) → typeGroup c = Some g.
Proof. intros Hc. by apply typesEntry_inr in Hc as (_ & ? & _). Qed.

Lemma feesEntry_group height c g k fee :
  feesEntry height c = inr (g, k, fee) → typeGroup c = Some g.
Proof. intros Hc. by apply feesEntry_inr in Hc as (? & _). Qed.

Lemma schemasEntry_group c g t schema :
  schemasEntry c = inr (g, t, schema) → typeGroup c = Some g.
Proof. intros Hc. by apply schemasEntry_inr in Hc as (_ & ? & _). Qed.

Lemma elem_of_groups (g : Z) (cs : list TransactionConstructor) :
  g ∈ (list_to_set (omap typeGroup cs) : gset Z)
  ↔ ∃ c, c ∈ cs ∧ typeGroup c = Some g.
Proof. rewrite elem_of_list_to_set. apply list_elem_of_omap. Qed.

(** X10: when [types] returns, every activated handler has its group in the
    listing and, unless its capitalised key is "__proto__", is listed
    there under that key; every entry is the type of an activated handler
    with that group and that capitalised key, which is never "__proto__";
    and every group is the typeGroup of an activated handler. *)
Theorem types_lists_handlers (w : World) (result : gmap Z (gmap string Z)) :
  types w = inr result →
  (∀ c, c ∈ getActivatedHandlers w →
     ∃ g t k name,
       typeGroup c = Some g ∧ type c = Some t ∧ key c = Some k
       ∧ capitalize k = inr name ∧ g ∈ dom result
       ∧ (name ≠ "__proto__" → is_Some (lookup2 result g name)))
  ∧ (∀ g name t, lookup2 result g name = Some t →
       name ≠ "__proto__"
       ∧ ∃ c k, c ∈ getActivatedHandlers w
           ∧ typeGroup c = Some g ∧ type c = Some t ∧ key c = Some k
           ∧ capitalize k = inr name)
  ∧ (∀ g, g ∈ dom result →
       ∃ c, c ∈ getActivatedHandlers w ∧ typeGroup c = Some g).
Proof.
  intros Hres. unfold Api.types in Hres.
  destruct (forOf_collect_inr _ _ _ _ _ Hres) as (Hsound & _ & Hcompl).
  pose proof (forOf_collect_dom _ _ _ _ _ typesEntry_group Hres) as Hdom.
  rewrite dom_empty_L, (left_id_L ∅ (∪)) in Hdom.
  assert (Forall (λ c, ∃ e, typesEntry c = inr e) (getActivatedHandlers w)) as Hall
    by (apply (forOf_collect_is_inr isProto) with (acc := ∅); by eexists).
  repeat split.
  - intros c Hin. rewrite Forall_forall in Hall.
    destruct (Hall c Hin) as [[[g name] t] Hc].
    pose proof (Hcompl c g name t Hin Hc) as Hsome.
    apply typesEntry_inr in Hc as (? & ? & k & ? & ?).
    exists g, t, k, name. repeat split; try done.
    + rewrite Hdom. apply elem_of_groups. by exists c.
    + intros Hname. by apply Hsome, isProto_false.
  - destruct (Hsound g name t H) as [Hempty|(Hr & _)].
    + unfold lookup2 in Hempty. by rewrite lookup_empty in Hempty.
    + by apply isProto_false.
  - destruct (Hsound g name t H) as [Hempty|(_ & c & Hin & Hc)].
    + unfold lookup2 in Hempty. by rewrite lookup_empty in Hempty.
    + apply typesEntry_inr in Hc as (? & ? & k & ? & ?). by exists c, k.
  - intros g Hg. rewrite Hdom in Hg. by apply elem_of_groups.
Qed.

(** X11: [types] throws exactly when some activated handler has no type, no
    typeGroup or no key, or has the empty key. *)
Theorem types_throws (w : World) :
  (∃ e, types w = inl e)
  ↔ Exists (λ c, type c = None ∨ typeGroup c = None ∨ key c = None
                 ∨ key c = Some "") (getActivatedHandlers w).
Proof.
  unfold Api.types. rewrite forOf_collect_is_inl.
  split; intros Hex; (eapply Exists_impl; [exact Hex|]); intros c;
    apply typesEntry_inl.
Qed.

(** X12: where two activated handlers share a group and a capitalised key
    other than "__proto__", the later one is listed: a handler's type is
    the entry under its group and name when no handler after it has the
    same group and name. Under "__proto__" nothing is listed. *)
Theorem types_later_handler_wins (w : World) (result : gmap Z (gmap string Z))
    (before after : list TransactionConstructor) (c : TransactionConstructor)
    (g t : Z) (k name : string) :
  types w = inr result →
  getActivatedHandlers w = before ++ c :: after →
  typeGroup c = Some g → type c = Some t → key c = Some k →
  capitalize k = inr name →
  (∀ c' k', c' ∈ after → typeGroup c' = Some g → key c' = Some k' →
     capitalize k' ≠ inr name) →
  lookup2 result g name = if isProto name then None else Some t.
Proof.
  intros Hres Hcs Hg Ht Hk Hname Hafter. unfold Api.types in Hres.
  destruct (isProto name) eqn:Hproto.
  { rewrite (forOf_collect_reserved _ _ _ _ _ g name Hres Hproto).
    unfold lookup2. by rewrite lookup_empty. }
  rewrite Hcs, forOf_collect_app in Hres.
  destruct (forOf (collect isProto typesEntry) before ∅) as [e|acc]; [done|].
  simpl in Hres. unfold collect at 1 in Hres.
  assert (typesEntry c = inr (g, name, t)) as Hc
    by (apply typesEntry_inr; repeat split; try done; by exists k).
  rewrite Hc in Hres.
  apply (forOf_collect_keeps _ _ _ _ _ _ _ _ Hres).
  - rewrite lookup2_assign. by rewrite decide_True.
  - intros c' v' Hin Hc'. apply typesEntry_inr in Hc' as (_ & Hg' & k' & Hk' & Hname').
    by apply (Hafter c' k').
Qed.

(** X13: when [fees] returns, every activated handler has its group in the
    listing and, unless its key is "__proto__", is listed there under its
    key; every entry is the static fee of an activated handler with that
    group and key at the last height of the state store, and its key is
    never "__proto__". *)
Theorem fees_lists_handlers (w : World) (result : gmap Z (gmap string string)) :
  fees w = inr result →
  (∀ c, c ∈ getActivatedHandlers w →
     ∃ g k, typeGroup c = Some g ∧ key c = Some k ∧ g ∈ dom result
       ∧ (k ≠ "__proto__" → is_Some (lookup2 result g k)))
  ∧ (∀ g k fee, lookup2 result g k = Some fee →
       k ≠ "__proto__"
       ∧ ∃ c, c ∈ getActivatedHandlers w
           ∧ typeGroup c = Some g ∧ key c = Some k
           ∧ fee = staticFee c (getLastHeight w)).
Proof.
  intros Hres. unfold Api.fees in Hres.
  destruct (forOf_collect_inr _ _ _ _ _ Hres) as (Hsound & _ & Hcompl).
  pose proof (forOf_collect_dom _ _ _ _ _ (feesEntry_group _) Hres) as Hdom.
  rewrite dom_empty_L, (left_id_L ∅ (∪)) in Hdom.
  assert (Forall (λ c, ∃ e, feesEntry (getLastHeight w) c = inr e)
            (getActivatedHandlers w)) as Hall
    by (apply (forOf_collect_is_inr isProto) with (acc := ∅); by eexists).
  split.
  - intros c Hin. rewrite Forall_forall in Hall.
    destruct (Hall c Hin) as [[[g k] fee] Hc].
    pose proof (Hcompl c g k fee Hin Hc) as Hsome.
    apply feesEntry_inr in Hc as (? & ? & ?). exists g, k.
    repeat split; try done.
    + rewrite Hdom. apply elem_of_groups. by exists c.
    + intros Hk. by apply Hsome, isProto_false.
  - intros g k fee Hlook.
    destruct (Hsound g k fee Hlook) as [Hempty|(Hr & c & Hin & Hc)].
    + unfold lookup2 in Hempty. by rewrite lookup_empty in Hempty.
    + split; [by apply isProto_false|].
      apply feesEntry_inr in Hc as (? & ? & ?). by exists c.
Qed.

(** X14: when [types] returns, [schemas] and [fees] return as well, and the
    three listings have the same groups. *)
Theorem listings_same_groups (w : World) (result : gmap Z (gmap string Z)) :
  types w = inr result →
  ∃ byType byKey,
    schemas w = inr byType ∧ fees w = inr byKey
    ∧ dom byType = dom result ∧ dom byKey = dom result.
Proof.
  intros Hres.
  assert (Forall (λ c, ∃ e, typesEntry c = inr e) (getActivatedHandlers w)) as Hall
    by (apply (forOf_collect_is_inr isProto) with (acc := ∅); by eexists).
  assert (∃ byType, schemas w = inr byType) as [byType Hs].
  { apply forOf_collect_is_inr. eapply Forall_impl; [exact Hall|].
    intros c [[[g name] t] Hc]. apply typesEntry_inr in Hc as (? & ? & _).
    exists (g, t, getSchema c). by apply schemasEntry_inr. }
  assert (∃ byKey, fees w = inr byKey) as [byKey Hf].
  { apply forOf_collect_is_inr. eapply Forall_impl; [exact Hall|].
    intros c [[[g name] t] Hc]. apply typesEntry_inr in Hc as (? & ? & k & ? & _).
    exists (g, k, staticFee c (getLastHeight w)). by apply feesEntry_inr. }
  exists byType, byKey. repeat split; try done.
  - rewrite (forOf_collect_dom _ _ _ _ _ schemasEntry_group Hs).
    by rewrite (forOf_collect_dom _ _ _ _ _ typesEntry_group Hres).
  - rewrite (forOf_collect_dom _ _ _ _ _ (feesEntry_group _) Hf).
    by rewrite (forOf_collect_dom _ _ _ _ _ typesEntry_group Hres).
Qed.

End Listings.

(** The example handlers pass the checks of the three listings. *)
Lemma exampleConstructors_types :
  ∃ result,
    Api.types unit (λ _, exampleConstructors) exampleToUpperCase
      (Error "assert") (Error "type") () = inr result.
Proof.
  apply (proj2 (forOf_collect_is_inr isProto _ _ ∅)). unfold exampleConstructors.
  repeat (apply Forall_cons; split; [by eexists|]). by apply Forall_nil.
Qed.

Lemma exampleConstructors_fees :
  ∃ result,
    Api.fees unit (λ _, exampleConstructors) (λ _, 100%Z) (Error "assert") () =
      inr result.
Proof.
  apply (proj2 (forOf_collect_is_inr isProto _ _ ∅)). unfold exampleConstructors.
  repeat (apply Forall_cons; split; [by eexists|]). by apply Forall_nil.
Qed.

(** The first of the example handlers is listed in the group 1 as
    "Transfer", and nothing is listed as "__proto__". *)
Lemma types_lists_handlers_witness :
  ∃ result,
    Api.types unit (λ _, exampleConstructors) exampleToUpperCase
      (Error "assert") (Error "type") () = inr result
    ∧ (∀ c, c ∈ exampleConstructors →
         ∃ g t k name,
           typeGroup c = Some g ∧ type c = Some t ∧ key c = Some k
           ∧ Api.capitalize exampleToUpperCase (Error "type") k = inr name
           ∧ g ∈ dom result
           ∧ (name ≠ "__proto__" → is_Some (lookup2 result g name))).
Proof.
  destruct exampleConstructors_types as [result Hres].
  exists result. split; [exact Hres|].
  exact (proj1 (types_lists_handlers unit (λ _, exampleConstructors) exampleToUpperCase
                  (Error "assert") (Error "type") () result Hres)).
Defined.

(** Two handlers with the group 1 and the key "transfer": the type of the
    second is listed. *)
Lemma types_later_handler_wins_witness :
  let first := mkConstructor (Some 0%Z) (Some 1%Z) (Some "transfer") (JObj []) (λ _, "1") in
  let second := mkConstructor (Some 9%Z) (Some 1%Z) (Some "transfer") (JObj []) (λ _, "2") in
  ∃ result,
    Api.types unit (λ _, [first; second]) exampleToUpperCase
      (Error "assert") (Error "type") () = inr result
    ∧ lookup2 result 1 "Transfer" = Some 9%Z.
Proof.
  intros first second.
  assert (∃ result,
            Api.types unit (λ _, [first; second]) exampleToUpperCase
              (Error "assert") (Error "type") () = inr result) as [result Hres].
  { apply (proj2 (forOf_collect_is_inr isProto _ _ ∅)).
    repeat (apply Forall_cons; split; [by eexists|]). by apply Forall_nil. }
  exists result. split; [exact Hres|].
  apply (types_later_handler_wins unit (λ _, [first; second]) exampleToUpperCase
           (Error "assert") (Error "type") () result [first] [] second 1%Z 9%Z
           "transfer" "Transfer" Hres eq_refl eq_refl eq_refl eq_refl eq_refl).
  intros c' k' Hin. by apply elem_of_nil in Hin.
Defined.

(** The fees of the three example handlers at height 100: each of them is
    listed. *)
Lemma fees_lists_handlers_witness :
  ∃ result,
    Api.fees unit (λ _, exampleConstructors) (λ _, 100%Z) (Error "assert") () =
      inr result
    ∧ ∀ c, c ∈ exampleConstructors →
        ∃ g k, typeGroup c = Some g ∧ key c = Some k ∧ g ∈ dom result
          ∧ (k ≠ "__proto__" → is_Some (lookup2 result g k)).
Proof.
  destruct exampleConstructors_fees as [result Hres].
  exists result. split; [exact Hres|].
  exact (proj1 (fees_lists_handlers unit (λ _, exampleConstructors) (λ _, 100%Z)
                  (Error "assert") () result Hres)).
Defined.

(** The three listings of the example handlers have the same groups. *)
Lemma listings_same_groups_witness :
  ∃ result byType byKey,
    Api.types unit (λ _, exampleConstructors) exampleToUpperCase
      (Error "assert") (Error "type") () = inr result
    ∧ Api.schemas unit (λ _, exampleConstructors) (Error "assert") () = inr byType
    ∧ Api.fees unit (λ _, exampleConstructors) (λ _, 100%Z) (Error "assert") () =
        inr byKey
    ∧ dom byType = dom result ∧ dom byKey = dom result.
Proof.
  destruct exampleConstructors_types as [result Hres].
  destruct (listings_same_groups unit (λ _, exampleConstructors) (λ _, 100%Z)
              exampleToUpperCase (Error "assert") (Error "type") () result Hres)
    as (byType & byKey & Hs & Hf & Hd1 & Hd2).
  by exists result, byType, byKey.
Defined.

(** A handler with the key "__proto__": its group is listed, and is
    empty. *)
Example types_proto_key :
  Api.types unit (λ _, [mkConstructor (Some 7%Z) (Some 5%Z) (Some "__proto__")
                          (JObj []) (λ _, "1")])
    exampleToUpperCase (Error "assert") (Error "type") () = inr {[ 5%Z := ∅ ]}.
Proof. reflexivity. Qed.

End ListingProofs.

(** ** More on pagination *)

Module PaginationProofs.
Import Api.
Import ApiProofs.

#[local] Open Scope nat_scope.

(** [slice] cuts one piece out of the array, for any two integers. *)
Lemma slice_contiguous {A} (arr : list A) (start end_ : Z) :
  ∃ before after, arr = before ++ slice arr start end_ ++ after.
Proof.
  unfold slice.
  set (k := Z.to_nat (if (start <? 0)%Z
                      then Z.max (Z.of_nat (List.length arr) + start) 0
                      else Z.min start (Z.of_nat (List.length arr)))).
  set (n := Z.to_nat _).
  exists (take k arr), (drop n (drop k arr)).
  by rewrite take_drop, take_drop.
Qed.

Lemma take_then_next {A} (l : list A) (a b : nat) :
  take a l ++ take b (drop a l) = take (a + b) l.
Proof.
  revert l. induction a as [|a IH]; intros l; [done|].
  destruct l as [|x l]; simpl; [by rewrite take_nil|]. by rewrite IH.
Qed.

Section Controller.
Variable World : Type.
Variable getFromHighestPriority : World → list ITransaction.
Variable getListPage : Request → ListPage.

Abbreviation unconfirmed := (unconfirmed World getFromHighestPriority getListPage).

(** X15: whatever integers the page holds, negative ones included, the rows of
    [unconfirmed] are the data of one contiguous run of the snapshot, in
    the snapshot's order, and the count is the length of the snapshot; the
    services are left as they are. *)
Theorem unconfirmed_rows_contiguous request (w : World) :
  ∃ before segment after,
    getFromHighestPriority w = before ++ segment ++ after
    ∧ unconfirmed request w =
        (w, inr (toPagination
                   (mkResultsPage (data <$> segment)
                      (List.length (getFromHighestPriority w)) false)
                   (truthy (query_transform request)))).
Proof.
  destruct (slice_contiguous (getFromHighestPriority w)
              (offset (getListPage request))
              (offset (getListPage request) + limit (getListPage request)))
    as (before & after & Hcut).
  by exists before, (slice (getFromHighestPriority w)
                      (offset (getListPage request))
                      (offset (getListPage request) + limit (getListPage request))),
           after.
Qed.

(** X16: a page directly followed by the next one is the page of both limits:
    no row is lost or repeated between consecutive pages. *)
Theorem unconfirmed_pages_concatenate (first second both : Request) (w : World) :
  (0 ≤ offset (getListPage first))%Z →
  (0 ≤ limit (getListPage first))%Z →
  (0 ≤ limit (getListPage second))%Z →
  offset (getListPage second) =
    (offset (getListPage first) + limit (getListPage first))%Z →
  offset (getListPage both) = offset (getListPage first) →
  limit (getListPage both) =
    (limit (getListPage first) + limit (getListPage second))%Z →
  repliedRows (unconfirmed first w).2 ++ repliedRows (unconfirmed second w).2 =
    repliedRows (unconfirmed both w).2.
Proof.
  intros Ho Hl1 Hl2 Ho2 Ho3 Hl3. unfold Api.unconfirmed. simpl.
  rewrite Ho2, Ho3, Hl3.
  rewrite !slice_offset_limit by lia.
  rewrite <- fmap_app. f_equal.
  rewrite !Z2Nat.inj_add by lia.
  rewrite <- drop_drop. apply take_then_next.
Qed.

(** X17: for an offset and a limit that are not negative, the page is empty
    exactly when the limit is zero or the offset is at or past the end of
    the snapshot; the count is not affected. *)
Theorem unconfirmed_empty_page request (w : World) :
  (0 ≤ offset (getListPage request))%Z →
  (0 ≤ limit (getListPage request))%Z →
  (repliedRows (unconfirmed request w).2 = []
   ↔ limit (getListPage request) = 0%Z
     ∨ (Z.of_nat (List.length (getFromHighestPriority w))
        ≤ offset (getListPage request))%Z)
  ∧ ∃ rows transform,
      (unconfirmed request w).2 =
        inr (toPagination
               (mkResultsPage rows (List.length (getFromHighestPriority w)) false)
               transform).
Proof.
  intros Ho Hl. split; [|by eexists _, _].
  unfold Api.unconfirmed. simpl. rewrite slice_offset_limit by done.
  rewrite <- length_zero_iff_nil, length_fmap, length_take, length_drop. lia.
Qed.

End Controller.

(** The first row, then the next two, are the first three. *)
Lemma unconfirmed_pages_concatenate_witness :
  repliedRows (Api.unconfirmed (list ITransaction) (λ w, w) exampleListPage
                 (mkRequest "first" JUndefined []) examplePool).2
  ++ repliedRows (Api.unconfirmed (list ITransaction) (λ w, w) exampleListPage
                    (mkRequest "second" JUndefined []) examplePool).2 =
  repliedRows (Api.unconfirmed (list ITransaction) (λ w, w) exampleListPage
                 (mkRequest "both" JUndefined []) examplePool).2.
Proof.
  apply (unconfirmed_pages_concatenate (list ITransaction) (λ w, w) exampleListPage
           (mkRequest "first" JUndefined []) (mkRequest "second" JUndefined [])
           (mkRequest "both" JUndefined []) examplePool);
    vm_compute; congruence.
Defined.

(** A page that starts behind the four transactions of the pool is empty,
    with a count of four. *)
Lemma unconfirmed_empty_page_witness :
  repliedRows (Api.unconfirmed (list ITransaction) (λ w, w) exampleListPage
                 (mkRequest "past" JUndefined []) examplePool).2 = [].
Proof.
  apply (unconfirmed_empty_page (list ITransaction) (λ w, w) exampleListPage
           (mkRequest "past" JUndefined []) examplePool);
    [vm_compute; congruence|vm_compute; congruence|].
  right. vm_compute. congruence.
Defined.

End PaginationProofs.

(** ** The wallets controller *)

Module WalletProofs.
Import Wallets.

Section Controller.
Variable findByScope : SearchScope → Json → JsError + Wallet.
Variable search : SearchScope → gmap string Json → JsError + Api.ResultsPage.
Variable listByWalletAndCriteria :
  Wallet → gmap string Json → Json → gmap string Json → JsError + Api.ResultsPage.
Variable listBySenderPublicKeyAndCriteria :
  string → gmap string Json → Json → gmap string Json → JsError + Api.ResultsPage.
Variable listByRecipientIdAndCriteria :
  string → gmap string Json → Json → gmap string Json → JsError + Api.ResultsPage.
Variable listVoteBySenderPublicKeyAndCriteria :
  string → gmap string Json → Json → gmap string Json → JsError + Api.ResultsPage.
Variable getListingOrder : WalletRequest → Json.
Variable getListingPage : WalletRequest → gmap string Json.

Abbreviation show := (show findByScope).
Abbreviation transactions :=
  (transactions findByScope listByWalletAndCriteria getListingOrder getListingPage).
Abbreviation transactionsSent :=
  (transactionsSent findByScope listBySenderPublicKeyAndCriteria getListingOrder
     getListingPage).
Abbreviation transactionsReceived :=
  (transactionsReceived findByScope listByRecipientIdAndCriteria getListingOrder
     getListingPage).
Abbreviation votes :=
  (votes findByScope listVoteBySenderPublicKeyAndCriteria getListingOrder
     getListingPage).
Abbreviation locks := (locks findByScope search getListingPage).

(** X18: when the repository throws for the requested id, whatever it throws,
    each of the six operations on one wallet resolves, none of them
    throwing, with the same not-found reply, and nothing of the error
    reaches the reply. *)
Theorem unknown_wallet request (e : JsError) :
  findByScope ScopeWallets (prop (params request) "id") = inl e →
  show request = inr (replyNotFound "Wallet not found")
  ∧ transactions request = inr (replyNotFound "Wallet not found")
  ∧ transactionsSent request = inr (replyNotFound "Wallet not found")
  ∧ transactionsReceived request = inr (replyNotFound "Wallet not found")
  ∧ votes request = inr (replyNotFound "Wallet not found")
  ∧ locks request = inr (replyNotFound "Wallet not found").
Proof.
  intros He.
  unfold Wallets.show, Wallets.transactions, Wallets.transactionsSent,
         Wallets.transactionsReceived, Wallets.votes, Wallets.locks, findWallet.
  by rewrite He.
Qed.

(** [show] replies not-found only when the repository threw. *)
Lemma show_not_found request msg :
  show request = inr (replyNotFound msg) →
  ∃ e, findByScope ScopeWallets (prop (params request) "id") = inl e.
Proof.
  unfold Wallets.show, findWallet.
  destruct (findByScope _ _) as [e|wallet]; [by eexists|done].
Qed.

(** X19: for a wallet that is found but has no public key, or an empty one,
    the sent and the received transactions, the votes and the locks are
    each the empty page with a count of zero, whatever the history service
    and the search hold, also for what the wallet's address received. *)
Theorem wallet_without_publicKey request (wallet : Wallet) :
  findByScope ScopeWallets (prop (params request) "id") = inr wallet →
  hasPublicKey wallet = false →
  transactionsSent request =
    inr (replyPagination emptyPage TransactionResource JUndefined)
  ∧ transactionsReceived request =
      inr (replyPagination emptyPage TransactionResource JUndefined)
  ∧ votes request = inr (replyPagination emptyPage TransactionResource JUndefined)
  ∧ locks request = inr (replyPagination emptyPage LockResource JUndefined).
Proof.
  intros Hw Hk.
  unfold Wallets.transactionsSent, Wallets.transactionsReceived, Wallets.votes,
         Wallets.locks, findWallet.
  by rewrite Hw, Hk.
Qed.

(** X20: the criteria [locks] searches with: the sender is the public key of
    the wallet found for the id, whatever the request carries under that
    name; for every other name the page comes before the query and the
    query before the path parameters. *)
Theorem locks_criteria request (wallet : Wallet) (pk : string) :
  findByScope ScopeWallets (prop (params request) "id") = inr wallet →
  publicKey wallet = Some pk → pk ≠ "" →
  locks request =
    paginate (search ScopeLocks (locksCriteria getListingPage request wallet))
      LockResource JUndefined
  ∧ locksCriteria getListingPage request wallet !! "senderPublicKey" = Some (JStr pk)
  ∧ ∀ k, k ≠ "senderPublicKey" →
      locksCriteria getListingPage request wallet !! k =
        match getListingPage request !! k with
        | Some v => Some v
        | None =>
            match query request !! k with
            | Some v => Some v
            | None => params request !! k
            end
        end.
Proof.
  intros Hw Hpk Hne. split; [|split].
  - unfold Wallets.locks, findWallet. rewrite Hw.
    unfold hasPublicKey. rewrite Hpk.
    by apply String.eqb_neq in Hne as ->.
  - unfold locksCriteria, publicKeyOf. rewrite Hpk. apply lookup_insert_eq.
  - intros k Hk. unfold locksCriteria. rewrite lookup_insert_ne by done.
    rewrite !lookup_union.
    destruct (getListingPage request !! k), (query request !! k),
      (params request !! k); done.
Qed.

End Controller.

(** X21: the criteria of [search] and of [index]: for every name the page comes
    before the query, and in [search] the query before the payload. *)
Theorem search_criteria (getListingPage : WalletRequest → gmap string Json)
    request (k : string) :
  searchCriteria getListingPage request !! k =
    match getListingPage request !! k with
    | Some v => Some v
    | None =>
        match query request !! k with
        | Some v => Some v
        | None => payload request !! k
        end
    end
  ∧ indexCriteria getListingPage request !! k =
      match getListingPage request !! k with
      | Some v => Some v
      | None => query request !! k
      end.
Proof.
  unfold searchCriteria, indexCriteria. rewrite !lookup_union.
  destruct (getListingPage request !! k), (query request !! k),
    (payload request !! k); done.
Qed.

(** An id the repository does not know. *)
Lemma unknown_wallet_witness :
  exampleFindByScope ScopeWallets (prop (params (requestFor "nobody")) "id") =
    inl (Error "Wallet does not exist")
  ∧ Wallets.transactionsReceived exampleFindByScope exampleList (λ _, JNull) (λ _, ∅)
      (requestFor "nobody") = inr (replyNotFound "Wallet not found").
Proof.
  assert (exampleFindByScope ScopeWallets (prop (params (requestFor "nobody")) "id") =
            inl (Error "Wallet does not exist")) as He by (vm_compute; reflexivity).
  split; [exact He|].
  exact (proj1 (proj2 (proj2 (proj2
           (unknown_wallet exampleFindByScope exampleSearch exampleList exampleList
              exampleList exampleList (λ _, JNull) (λ _, ∅) (requestFor "nobody")
              _ He))))).
Defined.

(** The cold wallet: its received transactions are reported as none,
    although the history service has a row for every subject. *)
Lemma wallet_without_publicKey_witness :
  exampleFindByScope ScopeWallets (prop (params (requestFor "cold")) "id") =
    inr (mkWallet "AcoldAddress" None)
  ∧ hasPublicKey (mkWallet "AcoldAddress" None) = false
  ∧ Wallets.transactionsReceived exampleFindByScope exampleList (λ _, JNull) (λ _, ∅)
      (requestFor "cold") =
      inr (replyPagination emptyPage TransactionResource JUndefined).
Proof.
  assert (exampleFindByScope ScopeWallets (prop (params (requestFor "cold")) "id") =
            inr (mkWallet "AcoldAddress" None)) as Hw by (vm_compute; reflexivity).
  split; [exact Hw|]. split; [reflexivity|].
  exact (proj1 (proj2
           (wallet_without_publicKey exampleFindByScope exampleSearch exampleList
              exampleList exampleList (λ _, JNull) (λ _, ∅) (requestFor "cold")
              _ Hw eq_refl))).
Defined.

(** The hot wallet, asked for its locks with a forged sender in the query:
    the search is for the wallet's own key. *)
Lemma locks_criteria_witness :
  let request :=
    mkWalletRequest {[ "id" := JStr "hot" ]} {[ "senderPublicKey" := JStr "03ff" ]} ∅ in
  exampleFindByScope ScopeWallets (prop (params request) "id") =
    inr (mkWallet "AhotAddress" (Some "02ab"))
  ∧ locksCriteria (λ _, ∅) request (mkWallet "AhotAddress" (Some "02ab"))
      !! "senderPublicKey" = Some (JStr "02ab").
Proof.
  intros request.
  assert (exampleFindByScope ScopeWallets (prop (params request) "id") =
            inr (mkWallet "AhotAddress" (Some "02ab"))) as Hw
    by (vm_compute; reflexivity).
  split; [exact Hw|].
  assert ("02ab" ≠ "") as Hne by discriminate.
  exact (proj1 (proj2
           (locks_criteria exampleFindByScope exampleSearch (λ _, ∅) request
              _ "02ab" Hw eq_refl Hne))).
Defined.

End WalletProofs.

(** ** The local configuration loader *)

Module LoaderProofs.
Import LocalConfigLoader.

Section Loader.
Variable configPath : option string → string.
Variable searchSync : list string → string → JsError + option Json.
Variable typeError : JsError.

Abbreviation loadConfiguration := (loadConfiguration configPath searchSync typeError).
Abbreviation found := (found configPath searchSync).

Lemma loadFromLocation_found places :
  loadFromLocation configPath searchSync typeError places =
    ([EvSearch places (configPath None)],
     match found places with
     | Some config => inr config
     | None =>
         inl (match searchSync places (configPath None) with
              | inl e => e
              | _ => typeError
              end)
     end).
Proof.
  unfold loadFromLocation, LocalConfigLoader.found.
  by destruct (searchSync places (configPath None)) as [e|[config|]].
Qed.

(** X22: [loadConfiguration] succeeds exactly when the packages, the peers and
    the delegates are all found; in every other case, a search that
    throws or that finds nothing, its one and only exception is
    [ApplicationConfigurationCannotBeLoaded]. *)
Theorem loadConfiguration_outcome :
  (loadConfiguration.2 = inr ()
   ↔ is_Some (found (packagesPlaces configPath))
     ∧ is_Some (found (peersPlaces configPath))
     ∧ is_Some (found (delegatesPlaces configPath)))
  ∧ (loadConfiguration.2 = inr ()
     ∨ loadConfiguration.2 = inl ApplicationConfigurationCannotBeLoaded).
Proof.
  unfold LocalConfigLoader.loadConfiguration, loadServiceProviders, loadPeers,
         loadDelegates, andThen, appConfig.
  rewrite !loadFromLocation_found.
  destruct (found (packagesPlaces configPath)); simpl;
    [destruct (found (peersPlaces configPath)); simpl;
     [destruct (found (delegatesPlaces configPath)); simpl|]|];
    (split; [split|]); try (by auto); try (by intros (? & ? & ?));
    try (by intros ([? ?] & _)); try (by intros (_ & [? ?] & _));
    try (by intros (_ & _ & [? ?])); try (by repeat split; eexists).
Qed.

(** X23: the loads run in the order packages, peers, delegates and stop at the
    first that fails: what was found before it has been set in the
    application and stays set, and nothing after it is searched for. *)
Theorem loadConfiguration_effects :
  filter isConfig loadConfiguration.1 =
    match found (packagesPlaces configPath) with
    | None => []
    | Some packages =>
        EvConfig "packages" packages ::
        match found (peersPlaces configPath) with
        | None => []
        | Some peers =>
            EvConfig "peers" peers ::
            match found (delegatesPlaces configPath) with
            | None => []
            | Some delegates => [EvConfig "delegates" delegates]
            end
        end
    end
  ∧ filter isSearch loadConfiguration.1 =
      EvSearch (packagesPlaces configPath) (configPath None) ::
      match found (packagesPlaces configPath) with
      | None => []
      | Some _ =>
          EvSearch (peersPlaces configPath) (configPath None) ::
          match found (peersPlaces configPath) with
          | None => []
          | Some _ => [EvSearch (delegatesPlaces configPath) (configPath None)]
          end
      end.
Proof.
  unfold LocalConfigLoader.loadConfiguration, loadServiceProviders, loadPeers,
         loadDelegates, andThen, appConfig.
  rewrite !loadFromLocation_found.
  destruct (found (packagesPlaces configPath)); simpl;
    [destruct (found (peersPlaces configPath)); simpl;
     [destruct (found (delegatesPlaces configPath)); simpl|]|];
    done.
Qed.

End Loader.

End LoaderProofs.
